(** * HTMLTableKit: a shallow embedding of [src/HTMLTableKit.ts]

    The development follows the TypeScript class member by member.

    - [JS]: the host built-ins the class calls on strings and numbers
      ([trim], [toLowerCase], [includes], [Number], [parseInt],
      [parseFloat], [String]).
    - [DOM]: the table element and the selector queries the class issues.
    - [Kit]: the class itself; an engine instance is a record holding the
      three private fields, and every method is a function on that record.
    - [Spec]: the type inferrer in the words of the specification.
    - [Examples]: a few concrete tables.
    The properties follow, grouped by the part of the class they are about.

    Idealisations, stated once:
    - strings are sequences of ASCII characters, so a JS string's [length]
      is [String.length] and white space is the ASCII white space;
    - a JS number is kept as the exact decimal value of the literal it was
      read from; binary64 rounding and overflow are outside the model;
    - a row object is a dictionary (own properties only). *)

From Stdlib Require Import ZArith Ascii String.
From stdpp Require Import gmap strings list fin_maps pretty.

Local Open Scope string_scope.

(** ** Host built-ins *)

Module JS.

Definition code (c : ascii) : N := N_of_ascii c.

Definition between (lo hi : N) (c : ascii) : bool :=
  ((lo <=? code c) && (code c <=? hi))%N.

(** [StrWhiteSpaceChar] restricted to ASCII: TAB, LF, VT, FF, CR, SP. *)
Definition is_white (c : ascii) : bool :=
  between 9 13 c || (code c =? 32)%N.

Definition is_digit (c : ascii) : bool := between 48 57 c.

Definition is_hex_digit (c : ascii) : bool :=
  is_digit c || between 65 70 c || between 97 102 c.

Definition is_octal_digit (c : ascii) : bool := between 48 55 c.

Definition is_binary_digit (c : ascii) : bool := between 48 49 c.

Fixpoint forallb_string (p : ascii -> bool) (s : string) : bool :=
  match s with
  | EmptyString => true
  | String c s' => p c && forallb_string p s'
  end.

Fixpoint drop_while (p : ascii -> bool) (s : string) : string :=
  match s with
  | EmptyString => EmptyString
  | String c s' => if p c then drop_while p s' else s
  end.

Fixpoint take_while (p : ascii -> bool) (s : string) : string :=
  match s with
  | EmptyString => EmptyString
  | String c s' => if p c then String c (take_while p s') else EmptyString
  end.

Definition is_empty (s : string) : bool :=
  match s with EmptyString => true | _ => false end.

(** [s.trimStart()], [s.trimEnd()], [s.trim()]. *)
Definition trimStart (s : string) : string := drop_while is_white s.

Definition trimEnd (s : string) : string :=
  String.rev (drop_while is_white (String.rev s)).

Definition trim (s : string) : string := trimEnd (trimStart s).

(** [s.toLowerCase()]. *)
Definition lower (c : ascii) : ascii :=
  if between 65 90 c then ascii_of_N (code c + 32) else c.

Fixpoint toLowerCase (s : string) : string :=
  match s with
  | EmptyString => EmptyString
  | String c s' => String (lower c) (toLowerCase s')
  end.

(** [s.includes(c)] for a one-character needle, the only use in the class. *)
Fixpoint includes (c : ascii) (s : string) : bool :=
  match s with
  | EmptyString => false
  | String d s' => Ascii.eqb c d || includes c s'
  end.

(** [a || b] on strings: the empty string is the only falsy string. *)
Definition or_else (a b : string) : string := if is_empty a then b else a.

(** *** [Number(s)] is not [NaN]

    [StringToNumber] yields a number exactly when the trimmed text is
    empty or derives [StrNumericLiteral]; this is a property of the text
    alone. *)

Definition strip_sign (s : string) : bool * string :=
  match s with
  | String "+" s' => (false, s')
  | String "-" s' => (true, s')
  | _ => (false, s)
  end.

Definition nonempty_all (p : ascii -> bool) (s : string) : bool :=
  negb (is_empty s) && forallb_string p s.

(** [ExponentPart], the whole of [s]. *)
Definition is_exponent_part (s : string) : bool :=
  match s with
  | String c s' =>
      (Ascii.eqb c "e" || Ascii.eqb c "E")
      && nonempty_all is_digit (strip_sign s').2
  | EmptyString => false
  end.

(** [StrUnsignedDecimalLiteral], the whole of [s]. *)
Definition is_unsigned_decimal (s : string) : bool :=
  String.eqb s "Infinity" ||
  (let d1 := take_while is_digit s in
   let r1 := drop_while is_digit s in
   let '(d2, r2) :=
     match r1 with
     | String "." r => (take_while is_digit r, drop_while is_digit r)
     | _ => (EmptyString, r1)
     end in
   negb (is_empty d1 && is_empty d2)
   && (is_empty r2 || is_exponent_part r2)).

(** [NonDecimalIntegerLiteral], the whole of [s]. *)
Definition is_non_decimal_integer (s : string) : bool :=
  match s with
  | String "0" (String c ds) =>
      if Ascii.eqb c "x" || Ascii.eqb c "X" then nonempty_all is_hex_digit ds
      else if Ascii.eqb c "o" || Ascii.eqb c "O" then nonempty_all is_octal_digit ds
      else if Ascii.eqb c "b" || Ascii.eqb c "B" then nonempty_all is_binary_digit ds
      else false
  | _ => false
  end.

(** [!isNaN(Number(s))]. *)
Definition Number_is_number (s : string) : bool :=
  let t := trim s in
  is_empty t
  || is_non_decimal_integer t
  || is_unsigned_decimal (strip_sign t).2.

(** [isNaN(Number(s))]. *)
Definition isNaN_Number (s : string) : bool := negb (Number_is_number s).

(** *** Numbers

    [Finite neg m e] is the number [(-1)^neg * m * 10^e]; the functions
    below build it with a mantissa free of trailing zeros, so that one
    value has one representation. *)

Inductive number :=
| NaN
| Infinity (negative : bool)
| Finite (negative : bool) (mantissa : N) (exponent : Z).

Fixpoint digits_value (acc : N) (ds : string) : N :=
  match ds with
  | EmptyString => acc
  | String c ds' => digits_value (acc * 10 + (code c - 48)) ds'
  end.

Definition is_zero_digit (c : ascii) : bool := Ascii.eqb c "0".

(** The number written [ds * 10^e], [ds] a run of decimal digits. *)
Definition decimal (neg : bool) (ds : string) (e : Z) : number :=
  let r := String.rev ds in
  let zeros := String.length (take_while is_zero_digit r) in
  let m := digits_value 0 (String.rev (drop_while is_zero_digit r)) in
  if (m =? 0)%N then Finite neg 0 0 else Finite neg m (e + Z.of_nat zeros).

(** [parseInt(s, 10)]: the longest run of digits after white space and a
    sign; [NaN] when there is none. *)
Definition parseInt10 (s : string) : number :=
  let '(neg, t) := strip_sign (trimStart s) in
  let ds := take_while is_digit t in
  if is_empty ds then NaN else decimal neg ds 0.

(** The value of the longest exponent part that starts [s], 0 if none. *)
Definition leading_exponent (s : string) : Z :=
  match s with
  | String c r =>
      if Ascii.eqb c "e" || Ascii.eqb c "E" then
        let '(eneg, r') := strip_sign r in
        let ds := take_while is_digit r' in
        if is_empty ds then 0%Z
        else if eneg then (- Z.of_N (digits_value 0 ds))%Z
        else Z.of_N (digits_value 0 ds)
      else 0%Z
  | EmptyString => 0%Z
  end.

(** [parseFloat(s)]: the longest prefix that derives [StrDecimalLiteral]. *)
Definition parseFloat (s : string) : number :=
  let '(neg, t) := strip_sign (trimStart s) in
  if String.prefix "Infinity" t then Infinity neg
  else
    let d1 := take_while is_digit t in
    let r1 := drop_while is_digit t in
    let '(d2, r2) :=
      match r1 with
      | String "." r => (take_while is_digit r, drop_while is_digit r)
      | _ => (EmptyString, r1)
      end in
    if is_empty d1 && is_empty d2 then NaN
    else decimal neg (d1 ++ d2) (leading_exponent r2 - Z.of_nat (String.length d2)).

Fixpoint zeros (n : nat) : string :=
  match n with
  | O => EmptyString
  | S n' => String "0" (zeros n')
  end.

(** [Number::toString] in radix 10, on digits [ds] (the shortest ones) and
    the position [n] of the decimal point. *)
Definition layout (ds : string) (n : Z) : string :=
  let k := String.length ds in
  if ((Z.of_nat k <=? n) && (n <=? 21))%Z then
    ds ++ zeros (Z.to_nat n - k)
  else if ((0 <? n) && (n <=? 21))%Z then
    substring 0 (Z.to_nat n) ds ++ "." ++ substring (Z.to_nat n) (k - Z.to_nat n) ds
  else if ((-6 <? n) && (n <=? 0))%Z then
    "0." ++ zeros (Z.to_nat (- n)) ++ ds
  else
    let e := (n - 1)%Z in
    let es := (if (e <? 0)%Z then "-" else "+") ++ pretty (Z.abs_N e) in
    if (k =? 1)%nat then ds ++ "e" ++ es
    else substring 0 1 ds ++ "." ++ substring 1 (k - 1) ds ++ "e" ++ es.

Definition number_toString (x : number) : string :=
  match x with
  | NaN => "NaN"
  | Infinity neg => if neg then "-Infinity" else "Infinity"
  | Finite neg m e =>
      match decimal neg (pretty m) e with
      | Finite _ 0 _ => "0"
      | Finite _ m' e' =>
          let ds := pretty m' in
          (if neg then "-" else "")
          ++ layout ds (Z.of_nat (String.length ds) + e')
      | _ => "NaN"
      end
  end.

(** *** Values held by a row object *)

Inductive value :=
| Undefined
| Null
| Bool (b : bool)
| Num (x : number)
| Str (s : string).

#[export] Instance value_inhabited : Inhabited value := populate Undefined.

(** [ToBoolean]. *)
Definition truthy (v : value) : bool :=
  match v with
  | Undefined | Null => false
  | Bool b => b
  | Num NaN => false
  | Num (Infinity _) => true
  | Num (Finite _ m _) => negb (m =? 0)%N
  | Str s => negb (is_empty s)
  end.

(** [String(v)]. *)
Definition String_of (v : value) : string :=
  match v with
  | Undefined => "undefined"
  | Null => "null"
  | Bool b => if b then "true" else "false"
  | Num x => number_toString x
  | Str s => s
  end.

End JS.

(** ** The external tree

    A table element as the class sees it through its selectors: an ordered
    list of children, each a row group ([thead], [tbody], [tfoot]), a row
    placed directly under the table, a hidden input, or some other element
    ([caption], [colgroup]).  Rows hold cells; a cell holds content and
    possibly hidden inputs.  Markup written through [innerHTML] is kept as
    written and is taken to contain no nested rows or inputs. *)

Local Open Scope list_scope.

Module DOM.

Record input := {
  input_id : string;
  input_name : string;
  input_value : string;
  input_textContent : string
}.

Inductive content :=
| Text (s : string)
| Markup (s : string).

Record cell := {
  cell_th : bool;              (* [th] rather than [td] *)
  cell_content : content;
  cell_inputs : list input     (* [input type=hidden] inside the cell *)
}.

Record tr := {
  tr_data_id : option string;  (* the [data-id] attribute *)
  tr_cells : list cell         (* [querySelectorAll('td, th')] *)
}.

Inductive node :=
| Thead (rows : list tr)
| Tbody (rows : list tr)
| Tfoot (rows : list tr)
| Tr (r : tr)
| Input (i : input)
| Other.

Record table := {
  table_id : string;             (* [element.id], [""] when absent *)
  table_name : option string;    (* [getAttribute('name')] *)
  table_children : list node
}.

(** *** Text *)

Definition opens_tag (c : ascii) : bool :=
  JS.between 65 90 c || JS.between 97 122 c
  || Ascii.eqb c "/" || Ascii.eqb c "!" || Ascii.eqb c "?".

(** The text left of markup once its tags are dropped: a ["<"] followed by
    a letter, ["/"], ["!"] or ["?"] opens a tag that runs to the next
    [">"].  [inside] tells whether the scan is within a tag. *)
Fixpoint markup_text (inside : bool) (s : string) : string :=
  match s with
  | EmptyString => EmptyString
  | String c s' =>
      if inside then markup_text (negb (Ascii.eqb c ">")) s'
      else if Ascii.eqb c "<" then
        match s' with
        | String d _ =>
            if opens_tag d then markup_text true s'
            else String c (markup_text false s')
        | EmptyString => String c EmptyString
        end
      else String c (markup_text false s')
  end.

Definition textContent (c : cell) : string :=
  match cell_content c with
  | Text s => s
  | Markup s => markup_text false s
  end.

(** [cell.textContent?.trim() || ''] *)
Definition cell_text (c : cell) : string := JS.trim (textContent c).

(** *** Queries *)

(** [row.querySelectorAll('th')], [row.querySelectorAll('td')] *)
Definition ths (r : tr) : list cell := filter (fun c => cell_th c = true) (tr_cells r).
Definition tds (r : tr) : list cell := filter (fun c => cell_th c = false) (tr_cells r).

Definition rows_of (n : node) : list tr :=
  match n with
  | Thead rs | Tbody rs | Tfoot rs => rs
  | Tr r => [r]
  | Input _ | Other => []
  end.

(** [table.querySelectorAll('tr')] *)
Definition all_rows (t : table) : list tr :=
  flat_map rows_of (table_children t).

Definition thead_rows (n : node) : option (list tr) :=
  match n with Thead rs => Some rs | _ => None end.

Definition tbody_rows (n : node) : option (list tr) :=
  match n with Tbody rs => Some rs | _ => None end.

(** [table.querySelector('thead')], [table.querySelector('tbody')]: the
    rows of the first such group. *)
Definition thead (t : table) : option (list tr) :=
  head (omap thead_rows (table_children t)).

Definition tbody (t : table) : option (list tr) :=
  head (omap tbody_rows (table_children t)).

(** [table.querySelector('thead tr')] *)
Definition thead_tr (t : table) : option tr :=
  head (concat (omap thead_rows (table_children t))).

(** The rows under [n] that are the first child of their parent, [n]
    being child number [i] of the table. *)
Definition first_child_rows (i : nat) (n : node) : list tr :=
  match n with
  | Thead rs | Tbody rs | Tfoot rs => take 1 rs
  | Tr r => if (i =? 0)%nat then [r] else []
  | Input _ | Other => []
  end.

(** [table.querySelector('tr:first-child')] *)
Definition tr_first_child (t : table) : option tr :=
  head (concat (imap first_child_rows (table_children t))).

(** [table.querySelector('tbody tr, tr')] *)
Definition first_tr (t : table) : option tr := head (all_rows t).

Definition row_inputs (r : tr) : list input :=
  flat_map cell_inputs (tr_cells r).

Definition node_inputs (n : node) : list input :=
  match n with
  | Input i => [i]
  | _ => flat_map row_inputs (rows_of n)
  end.

(** [table.querySelectorAll('input[type="hidden"]')] *)
Definition hidden_inputs (t : table) : list input :=
  flat_map node_inputs (table_children t).

(** *** Updates *)

(** The node [n] after its rows were edited by [g]. *)
Definition edit_node (g : list tr -> list tr) (n : node) : list node :=
  match n with
  | Thead rs => [Thead (g rs)]
  | Tbody rs => [Tbody (g rs)]
  | Tfoot rs => [Tfoot (g rs)]
  | Tr r => Tr <$> g [r]
  | Input _ | Other => [n]
  end.

(** Edit, with [g k'], the node that holds row number [k] of the
    children [ns] counted in document order; [k'] is that row's number
    inside the node. *)
Fixpoint edit_row_at (g : nat -> list tr -> list tr) (k : nat) (ns : list node)
  : list node :=
  match ns with
  | [] => []
  | n :: ns' =>
      let len := length (rows_of n) in
      if (k <? len)%nat then edit_node (g k) n ++ ns'
      else n :: edit_row_at g (k - len) ns'
  end.

(** Edit, with [g], the first [tbody] among [ns]. *)
Fixpoint edit_tbody (g : list tr -> list tr) (ns : list node) : list node :=
  match ns with
  | [] => []
  | Tbody rs :: ns' => Tbody (g rs) :: ns'
  | n :: ns' => n :: edit_tbody g ns'
  end.

Definition with_children (t : table) (ns : list node) : table :=
  {| table_id := table_id t; table_name := table_name t; table_children := ns |}.

(** [(table.querySelector('tbody') || table).appendChild(r)] *)
Definition appendChild (r : tr) (t : table) : table :=
  match tbody t with
  | Some _ => with_children t (edit_tbody (fun rs => rs ++ [r]) (table_children t))
  | None => with_children t (table_children t ++ [Tr r])
  end.

(** [(table.querySelector('tbody') || table).querySelectorAll('tr')] *)
Definition body_rows (t : table) : list tr :=
  match tbody t with
  | Some rs => rs
  | None => all_rows t
  end.

(** Replace row number [k] of [body_rows] by [f] of it; nothing happens
    when there is no such row. *)
Definition alter_body_row (f : tr -> tr) (k : nat) (t : table) : table :=
  match tbody t with
  | Some _ => with_children t (edit_tbody (alter f k) (table_children t))
  | None => with_children t (edit_row_at (alter f) k (table_children t))
  end.

(** [body_rows[k].remove()], nothing when there is no such row. *)
Definition remove_body_row (k : nat) (t : table) : table :=
  match tbody t with
  | Some _ => with_children t (edit_tbody (delete k) (table_children t))
  | None => with_children t (edit_row_at delete k (table_children t))
  end.

(** *** The document *)

Inductive element :=
| HTMLTableElement (t : table)
| HTMLElement (id : string).

Definition element_id (e : element) : string :=
  match e with
  | HTMLTableElement t => table_id t
  | HTMLElement id => id
  end.

(** [document.getElementById(id)] *)
Definition getElementById (doc : list element) (id : string) : option element :=
  if JS.is_empty id then None
  else List.find (fun e => String.eqb (element_id e) id) doc.

End DOM.

(** ** The class *)

Module Kit.
Import JS DOM.

(** [type DataType = 'string' | 'number' | 'decimal' | 'boolean' | 'free'] *)
Inductive DataType := TString | TNumber | TDecimal | TBoolean | TFree.

Record TableHeader := {
  header_name : string;
  header_type : DataType
}.

(** [interface TableRow { id: string; [key: string]: any }]: the object's
    own properties, ["id"] among them. *)
Abbreviation TableRow := (gmap string value).

Record TableObject := {
  obj_id : string;
  obj_name : string;
  obj_headers : list TableHeader;
  obj_hidden : gmap string string;
  obj_rows : list TableRow
}.

(** An engine instance: the three private fields of the class. *)
Record HTMLTableKit := {
  tableElement : table;
  tableObject : TableObject;
  nextRowId : nat
}.

(** A call either returns or throws an [Error]. *)
Inductive result (A : Type) :=
| Return (a : A)
| Throw (message : string).
Arguments Return {A} a.
Arguments Throw {A} message.

(** [row[key]] *)
Definition get (row : TableRow) (key : string) : value :=
  default Undefined (row !! key).

(** [Object.assign(row, updates)] *)
Definition assign (row updates : TableRow) : TableRow := updates ∪ row.

(** [`column${index + 1}`], [`row_${index}`] *)
Definition column_name (index : nat) : string := "column" +:+ pretty (index + 1).
Definition row_name (index : nat) : string := "row_" +:+ pretty index.

(** *** Parsing *)

Definition quoted (s : string) : string :=
  String (ascii_of_N 34) s +:+ String (ascii_of_N 34) EmptyString.

Definition hidden_error : string := "Hidden input found without id or name attribute".

Fixpoint parseHiddenInputs (inputs : list input) (hidden : gmap string string)
  : result (gmap string string) :=
  match inputs with
  | [] => Return hidden
  | htmlInput :: rest =>
      let id := or_else (input_id htmlInput) (input_name htmlInput) in
      if is_empty id then Throw hidden_error
      else
        parseHiddenInputs rest
          (<[id := or_else (input_value htmlInput)
                     (or_else (input_textContent htmlInput) "")]> hidden)
  end.

Definition isRowHeader (cells : list cell) : bool :=
  forallb (fun c =>
             let text := cell_text c in
             negb (is_empty text) && isNaN_Number text) cells.

Definition createNumericHeaders (count : nat) : list TableHeader :=
  (fun i => {| header_name := column_name i; header_type := TString |}) <$> seq 0 count.

(** The headers read off a run of header cells. *)
Definition named_headers (cells : list cell) : list TableHeader :=
  imap (fun index c =>
          {| header_name := toLowerCase (or_else (cell_text c) (column_name index));
             header_type := TString |}) cells.

Definition parseHeaders (t : table) : list TableHeader :=
  match from_option Some (tr_first_child t) (thead_tr t) with
  | Some headerRow =>
      let headers := ths headerRow in
      if (0 <? length headers)%nat then named_headers headers
      else
        let firstRowCells := tds headerRow in
        if (0 <? length firstRowCells)%nat then
          if isRowHeader firstRowCells then named_headers firstRowCells
          else createNumericHeaders (length firstRowCells)
        else []
  | None =>
      match first_tr t with
      | Some firstDataRow => createNumericHeaders (length (tr_cells firstDataRow))
      | None => []
      end
  end.

Definition hasHeaderRow (t : table) : bool :=
  match thead t with
  | Some _ => true
  | None =>
      match tr_first_child t with
      | Some firstRow =>
          if (0 <? length (ths firstRow))%nat then true
          else isRowHeader (tds firstRow)
      | None => false
      end
  end.

(** [row.getAttribute('data-id')], when truthy. *)
Definition explicit_id (row : tr) : option string :=
  match tr_data_id row with
  | Some dataId => if is_empty dataId then None else Some dataId
  | None => None
  end.

(** The identity of the row and the counter afterwards. *)
Definition generateRowId (row : tr) (index : nat) (next : nat) : string * nat :=
  match explicit_id row with
  | Some dataId => (dataId, next)
  | None => (row_name index, Nat.max next (index + 1))
  end.

Definition detectColumnType (values : list string) : DataType :=
  if (length values =? 0)%nat then TString
  else
    let hasComplexContent :=
      existsb (fun v => includes "<" v || includes ">" v
                        || (100 <? String.length v)%nat) values in
    if hasComplexContent then TFree
    else
      let booleanValues := ["true"; "false"] in
      let allBoolean :=
        forallb (fun v => is_empty v
                          || existsb (String.eqb (toLowerCase v)) booleanValues) values in
      if allBoolean then TBoolean
      else
        let numericValues := List.filter (fun v => negb (is_empty v)) values in
        if (length numericValues =? 0)%nat then TString
        else
          let allNumeric := forallb (fun v => negb (isNaN_Number v)) numericValues in
          if negb allNumeric then TString
          else
            let hasDecimal := existsb (includes ".") numericValues in
            if hasDecimal then TDecimal else TNumber.

Definition parseValue (v : string) (type : DataType) : value :=
  match type with
  | TNumber => if is_empty v then Null else Num (parseInt10 v)
  | TDecimal => if is_empty v then Null else Num (parseFloat v)
  | TBoolean => Bool (String.eqb (toLowerCase v) "true")
  | TFree | TString => Str v
  end.

(** [Array.from(rows).slice(startIndex)], [rows] being those of the first
    [tbody] or, without one, all rows of the table. *)
Definition dataRows (t : table) : list tr :=
  let startIndex := if hasHeaderRow t then 1 else 0 in
  drop startIndex (body_rows t).

(** [columnData[colIndex]] after the first pass: the text of cell number
    [colIndex] of every data row that has one, in row order. *)
Definition columnData (rows : list tr) (colIndex : nat) : list string :=
  omap (fun row => cell_text <$> (tr_cells row !! colIndex)) rows.

Definition typed_headers (headers : list TableHeader) (rows : list tr)
  : list TableHeader :=
  imap (fun index header =>
          {| header_name := header_name header;
             header_type := detectColumnType (columnData rows index) |}) headers.

(** The second pass over one row: cells past the last header are ignored,
    a later cell overwrites an earlier one of the same name. *)
Fixpoint fill_row (headers : list TableHeader) (cells : list cell)
  (rowObject : TableRow) : TableRow :=
  match headers, cells with
  | header :: headers', c :: cells' =>
      fill_row headers' cells'
        (<[header_name header := parseValue (cell_text c) (header_type header)]> rowObject)
  | _, _ => rowObject
  end.

Fixpoint parseDataRows (headers : list TableHeader) (rowIndex : nat)
  (rows : list tr) (next : nat) : list TableRow * nat :=
  match rows with
  | [] => ([], next)
  | row :: rest =>
      let '(id, next1) := generateRowId row rowIndex next in
      let rowObject := fill_row headers (tr_cells row) {[ "id" := Str id ]} in
      let '(parsed, next2) := parseDataRows headers (S rowIndex) rest next1 in
      (rowObject :: parsed, next2)
  end.

(** [parseRows]: the typed headers, the rows and the counter afterwards. *)
Definition parseRows (t : table) (headers : list TableHeader) (next : nat)
  : list TableHeader * list TableRow * nat :=
  let headers' := typed_headers headers (dataRows t) in
  let '(rows, next') := parseDataRows headers' 0 (dataRows t) next in
  (headers', rows, next').

Definition parseTable (t : table) (next : nat) : result (TableObject * nat) :=
  match parseHiddenInputs (hidden_inputs t) ∅ with
  | Throw message => Throw message
  | Return hidden =>
      let '(headers, rows, next') := parseRows t (parseHeaders t) next in
      Return ({| obj_id := table_id t;
                 obj_name := default "" (table_name t);
                 obj_headers := headers;
                 obj_hidden := hidden;
                 obj_rows := rows |}, next')
  end.

(** [new HTMLTableKit(tableId)] in the document [doc]. *)
Definition construct (doc : list element) (tableId : string) : result HTMLTableKit :=
  match getElementById doc tableId with
  | None => Throw ("Table with id " +:+ quoted tableId +:+ " not found")
  | Some (HTMLElement _) => Throw ("Element with id " +:+ quoted tableId +:+ " is not a table")
  | Some (HTMLTableElement t) =>
      match parseTable t 0 with
      | Throw message => Throw message
      | Return (obj, next) =>
          Return {| tableElement := t; tableObject := obj; nextRowId := next |}
      end
  end.

Definition getTable (k : HTMLTableKit) : TableObject := tableObject k.

Definition refresh (k : HTMLTableKit) : result HTMLTableKit :=
  match parseTable (tableElement k) (nextRowId k) with
  | Throw message => Throw message
  | Return (obj, next) =>
      Return {| tableElement := tableElement k; tableObject := obj; nextRowId := next |}
  end.

(** *** Rendering *)

(** What [cell.innerHTML = v] stores: [null] is written as the empty
    string, anything else as [String(v)]. *)
Definition markup_of (v : value) : string :=
  match v with
  | Null => ""
  | _ => String_of v
  end.

(** The cell after [innerHTML = v] (a ['free'] column) or
    [textContent = String(v)]; either replaces all of its children. *)
Definition write_cell (type : DataType) (v : value) (c : cell) : cell :=
  {| cell_th := cell_th c;
     cell_content := match type with
                     | TFree => Markup (markup_of v)
                     | _ => Text (String_of v)
                     end;
     cell_inputs := [] |}.

Definition new_td : cell :=
  {| cell_th := false; cell_content := Text ""; cell_inputs := [] |}.

Definition addRowToDOM (headers : list TableHeader) (row : TableRow) (t : table)
  : table :=
  let tr :=
    {| tr_data_id := Some (String_of (get row "id"));
       tr_cells :=
         (fun header =>
            write_cell (header_type header) (get row (header_name header)) new_td)
           <$> headers |} in
  appendChild tr t.

(** The cells of a row after [updateRowInDOM] rewrote those that have a
    header. *)
Definition rewrite_cells (headers : list TableHeader) (row : TableRow) (domRow : tr)
  : tr :=
  {| tr_data_id := tr_data_id domRow;
     tr_cells :=
       imap (fun index c =>
               match headers !! index with
               | Some header =>
                   write_cell (header_type header) (get row (header_name header)) c
               | None => c
               end) (tr_cells domRow) |}.

Definition updateRowInDOM (headers : list TableHeader) (row : TableRow)
  (rowIndex : nat) (t : table) : table :=
  let startIndex := if hasHeaderRow t then 1 else 0 in
  alter_body_row (rewrite_cells headers row) (startIndex + rowIndex) t.

Definition deleteRowFromDOM (rowIndex : nat) (t : table) : table :=
  let startIndex := if hasHeaderRow t then 1 else 0 in
  remove_body_row (startIndex + rowIndex) t.

(** *** Synchronous operations *)

Definition getDefaultValue (type : DataType) : value :=
  match type with
  | TNumber => Num (Finite false 0 0)
  | TDecimal => Num (Finite false 0 0)
  | TBoolean => Bool false
  | TFree | TString => Str ""
  end.

Definition with_rows (obj : TableObject) (rows : list TableRow) : TableObject :=
  {| obj_id := obj_id obj; obj_name := obj_name obj; obj_headers := obj_headers obj;
     obj_hidden := obj_hidden obj; obj_rows := rows |}.

(** [{ id: rowData.id || `row_${this.nextRowId++}`, ...rowData }] and the
    counter afterwards. *)
Definition identify (rowData : TableRow) (next : nat) : TableRow * nat :=
  let '(id, next') :=
    if truthy (get rowData "id") then (get rowData "id", next)
    else (Str (row_name next), S next) in
  (rowData ∪ {[ "id" := id ]}, next').

(** Fill missing columns with default values. *)
Definition backfill (headers : list TableHeader) (newRow : TableRow) : TableRow :=
  foldl (fun row header =>
           match row !! header_name header with
           | Some _ => row
           | None => <[header_name header := getDefaultValue (header_type header)]> row
           end) newRow headers.

(** The tail shared by [addRow] and [addRowAsync]: push and render. *)
Definition commit_add (newRow : TableRow) (k : HTMLTableKit) : HTMLTableKit :=
  {| tableElement := addRowToDOM (obj_headers (tableObject k)) newRow (tableElement k);
     tableObject := with_rows (tableObject k) (obj_rows (tableObject k) ++ [newRow]);
     nextRowId := nextRowId k |}.

Definition with_next (k : HTMLTableKit) (next : nat) : HTMLTableKit :=
  {| tableElement := tableElement k; tableObject := tableObject k; nextRowId := next |}.

(** The candidate row of [addRow] and [addRowAsync] and the engine once
    the counter was advanced. *)
Definition candidate (rowData : TableRow) (k : HTMLTableKit) : TableRow * HTMLTableKit :=
  let '(newRow, next) := identify rowData (nextRowId k) in
  (backfill (obj_headers (tableObject k)) newRow, with_next k next).

Definition addRow (rowData : TableRow) (k : HTMLTableKit) : TableRow * HTMLTableKit :=
  let '(newRow, k1) := candidate rowData k in
  (newRow, commit_add newRow k1).

(** [row.id === id] *)
Definition has_id (id : string) (row : TableRow) : bool :=
  match row !! "id" with
  | Some (Str s) => String.eqb s id
  | _ => false
  end.

(** [rows.findIndex(p)], [None] for [-1]. *)
Fixpoint findIndex (p : TableRow -> bool) (rows : list TableRow) : option nat :=
  match rows with
  | [] => None
  | row :: rest => if p row then Some 0 else S <$> findIndex p rest
  end.

(** The tail shared by [updateRow] and [updateRowAsync]: merge and render. *)
Definition commit_update (rowIndex : nat) (row updates : TableRow) (k : HTMLTableKit)
  : HTMLTableKit :=
  let row' := assign row updates in
  {| tableElement :=
       updateRowInDOM (obj_headers (tableObject k)) row' rowIndex (tableElement k);
     tableObject := with_rows (tableObject k) (<[rowIndex := row']> (obj_rows (tableObject k)));
     nextRowId := nextRowId k |}.

Definition updateRow (id : string) (updates : TableRow) (k : HTMLTableKit)
  : bool * HTMLTableKit :=
  match findIndex (has_id id) (obj_rows (tableObject k)) with
  | None => (false, k)
  | Some rowIndex =>
      match obj_rows (tableObject k) !! rowIndex with
      | Some row => (true, commit_update rowIndex row updates k)
      | None => (false, k)   (* not reached: [rowIndex] came from [findIndex] *)
      end
  end.

(** [this.tableObject.rows[rowIndex]] *)
Definition get_row (rowIndex : nat) (k : HTMLTableKit) : TableRow :=
  default ∅ (obj_rows (tableObject k) !! rowIndex).

(** The tail shared by [deleteRow] and [deleteRowAsync]: splice and remove. *)
Definition commit_delete (rowIndex : nat) (k : HTMLTableKit) : HTMLTableKit :=
  {| tableElement := deleteRowFromDOM rowIndex (tableElement k);
     tableObject := with_rows (tableObject k) (delete rowIndex (obj_rows (tableObject k)));
     nextRowId := nextRowId k |}.

Definition deleteRow (id : string) (k : HTMLTableKit) : bool * HTMLTableKit :=
  match findIndex (has_id id) (obj_rows (tableObject k)) with
  | None => (false, k)
  | Some rowIndex => (true, commit_delete rowIndex k)
  end.

(** *** Asynchronous operations

    A decision function is given by the value its promise resolves to:
    [None] for [null], [Some r] for an object, a [bool] for
    [beforeDelete].  Each operation is split at its [await]: what runs
    before it, and a [settle_] function that runs once the decision is
    known.  The engine a [settle_] function receives is the one left at
    the [await]; nothing else writes to it while the call is suspended. *)

Definition settle_add (newRow : TableRow) (result : option TableRow) (k : HTMLTableKit)
  : option TableRow * HTMLTableKit :=
  match result with
  | None => (None, k)
  | Some r =>
      let newRow' := assign newRow r in
      (Some newRow', commit_add newRow' k)
  end.

Definition addRowAsync (rowData : TableRow)
  (beforeAdd : option (TableRow -> option TableRow)) (k : HTMLTableKit)
  : option TableRow * HTMLTableKit :=
  let '(newRow, k1) := candidate rowData k in
  match beforeAdd with
  | Some decide_add => settle_add newRow (decide_add newRow) k1
  | None => (Some newRow, commit_add newRow k1)
  end.

Definition settle_update (rowIndex : nat) (row : TableRow) (result : option TableRow)
  (k : HTMLTableKit) : bool * HTMLTableKit :=
  match result with
  | None => (false, k)
  | Some updates => (true, commit_update rowIndex row updates k)
  end.

Definition updateRowAsync (id : string) (updates : TableRow)
  (beforeUpdate : option (TableRow -> TableRow -> option TableRow)) (k : HTMLTableKit)
  : bool * HTMLTableKit :=
  match findIndex (has_id id) (obj_rows (tableObject k)) with
  | None => (false, k)
  | Some rowIndex =>
      match obj_rows (tableObject k) !! rowIndex with
      | Some row =>
          match beforeUpdate with
          | Some decide_update => settle_update rowIndex row (decide_update row updates) k
          | None => (true, commit_update rowIndex row updates k)
          end
      | None => (false, k)   (* not reached: [rowIndex] came from [findIndex] *)
      end
  end.

Definition settle_delete (rowIndex : nat) (shouldDelete : bool) (k : HTMLTableKit)
  : bool * HTMLTableKit :=
  if shouldDelete then (true, commit_delete rowIndex k) else (false, k).

Definition deleteRowAsync (id : string) (beforeDelete : option (TableRow -> bool))
  (k : HTMLTableKit) : bool * HTMLTableKit :=
  match findIndex (has_id id) (obj_rows (tableObject k)) with
  | None => (false, k)
  | Some rowIndex =>
      match beforeDelete with
      | Some decide_delete =>
          settle_delete rowIndex (decide_delete (get_row rowIndex k)) k
      | None => (true, commit_delete rowIndex k)
      end
  end.

(** *** Histories

    One step of an engine's life: a call of a public method, or a change
    made to the tree from outside the class (which touches neither the
    Model nor the counter). *)

Definition with_tree (k : HTMLTableKit) (t : table) : HTMLTableKit :=
  {| tableElement := t; tableObject := tableObject k; nextRowId := nextRowId k |}.

Inductive step : HTMLTableKit -> HTMLTableKit -> Prop :=
| step_addRow rowData k :
    step k (addRow rowData k).2
| step_addRowAsync rowData beforeAdd k :
    step k (addRowAsync rowData beforeAdd k).2
| step_updateRow id updates k :
    step k (updateRow id updates k).2
| step_updateRowAsync id updates beforeUpdate k :
    step k (updateRowAsync id updates beforeUpdate k).2
| step_deleteRow id k :
    step k (deleteRow id k).2
| step_deleteRowAsync id beforeDelete k :
    step k (deleteRowAsync id beforeDelete k).2
| step_refresh k k' :
    refresh k = Return k' -> step k k'
| step_tree t k :
    step k (with_tree k t).

(** [k'] is [k] some steps later. *)
Definition later (k k' : HTMLTableKit) : Prop := rtc step k k'.

(** The identities of the Model's rows, in order. *)
Definition identities (k : HTMLTableKit) : list value :=
  (fun row => get row "id") <$> obj_rows (tableObject k).

(** One call of a create, update or delete method, synchronous or not. *)
Inductive call : HTMLTableKit -> HTMLTableKit -> Prop :=
| call_addRow rowData k :
    call k (addRow rowData k).2
| call_addRowAsync rowData beforeAdd k :
    call k (addRowAsync rowData beforeAdd k).2
| call_updateRow id updates k :
    call k (updateRow id updates k).2
| call_updateRowAsync id updates beforeUpdate k :
    call k (updateRowAsync id updates beforeUpdate k).2
| call_deleteRow id k :
    call k (deleteRow id k).2
| call_deleteRowAsync id beforeDelete k :
    call k (deleteRowAsync id beforeDelete k).2.

(** *** A table shape

    The table has no [thead]; the first row of its first [tbody] is
    [header], it has [th] cells and it is the row [tr:first-child] finds.
    This is what the HTML parser builds for
    [<table><tr><th>..</th></tr><tr><td>..</td></tr>..</table>]. *)
Definition header_in_tbody (t : table) (header : tr) (rest : list tr) : Prop :=
  thead t = None
  /\ tbody t = Some (header :: rest)
  /\ tr_first_child t = Some header
  /\ ths header <> [].

End Kit.

(** ** The type inferrer as the specification words it

    Four decision steps tried in order, the first that matches deciding. *)

Module Spec.
Import JS Kit.

Definition is_complex (v : string) : bool :=
  includes "<" v || includes ">" v || (100 <? String.length v)%nat.

Definition is_boolean_word (v : string) : bool :=
  String.eqb (toLowerCase v) "true" || String.eqb (toLowerCase v) "false".

Definition parses_as_number (v : string) : bool := negb (isNaN_Number v).

Definition discard_empty (values : list string) : list string :=
  List.filter (fun v => negb (is_empty v)) values.

(** Step 4, on the values left once the empty ones are discarded. *)
Definition numeric_step (remaining : list string) : DataType :=
  match remaining with
  | [] => TString
  | _ =>
      if forallb parses_as_number remaining then
        if existsb (includes ".") remaining then TDecimal else TNumber
      else TString
  end.

(** Steps 1 to 3: a test on the whole column and the type it decides. *)
Definition steps : list ((list string -> bool) * DataType) :=
  [ (fun values => bool_decide (values = []), TString);
    (existsb is_complex, TFree);
    (forallb (fun v => is_empty v || is_boolean_word v), TBoolean) ].

Fixpoint first_match (rules : list ((list string -> bool) * DataType))
  (values : list string) : option DataType :=
  match rules with
  | [] => None
  | (test, type) :: rules' =>
      if test values then Some type else first_match rules' values
  end.

Definition inferType (values : list string) : DataType :=
  default (numeric_step (discard_empty values)) (first_match steps values).

End Spec.

(** ** Concrete tables *)

Module Examples.
Import JS DOM Kit.

Definition td (s : string) : cell :=
  {| cell_th := false; cell_content := Text s; cell_inputs := [] |}.

Definition th (s : string) : cell :=
  {| cell_th := true; cell_content := Text s; cell_inputs := [] |}.

Definition plain_row (cells : list cell) : tr :=
  {| tr_data_id := None; tr_cells := cells |}.

Definition keyed_row (dataId : string) (cells : list cell) : tr :=
  {| tr_data_id := Some dataId; tr_cells := cells |}.

Definition table_of (id : string) (children : list node) : table :=
  {| table_id := id; table_name := None; table_children := children |}.

(** [<table id=people><thead><tr><th>Name</th></tr></thead>
     <tbody><tr><td>Alice</td></tr><tr><td>Bob</td></tr></tbody></table>] *)
Definition people : table :=
  table_of "people"
    [ Thead [plain_row [th "Name"]];
      Tbody [plain_row [td "Alice"]; plain_row [td "Bob"]] ].

(** [<table id=fresh><thead><tr><th>Name</th></tr></thead><tbody></tbody></table>] *)
Definition fresh : table :=
  table_of "fresh" [ Thead [plain_row [th "Name"]]; Tbody [] ].

(** [<table id=staff><tbody><tr><th>Name</th></tr><tr><td>Alice</td></tr>
     </tbody></table>] *)
Definition staff : table :=
  table_of "staff" [ Tbody [plain_row [th "Name"]; plain_row [td "Alice"]] ].

(** [staff] with [data-id="row_0"] on its data row, as [addRowToDOM]
    leaves a row it rendered. *)
Definition keyed_staff : table :=
  table_of "staff"
    [ Tbody [plain_row [th "Name"]; keyed_row "row_0" [td "Alice"]] ].

(** The engine [new HTMLTableKit(id)] builds on a page that holds [t]
    alone; [idle] stands in where the constructor throws. *)
Definition idle (t : table) : HTMLTableKit :=
  {| tableElement := t;
     tableObject := {| obj_id := ""; obj_name := ""; obj_headers := [];
                       obj_hidden := ∅; obj_rows := [] |};
     nextRowId := 0 |}.

Definition kit_of (t : table) : HTMLTableKit :=
  match construct [HTMLTableElement t] (table_id t) with
  | Return k => k
  | Throw _ => idle t
  end.

Definition named (s : string) : TableRow := {[ "name" := Str s ]}.

Definition hidden_input (id name value : string) : input :=
  {| input_id := id; input_name := name; input_value := value;
     input_textContent := "" |}.

(** [staff] with two hidden inputs of key ["v"], one before the [tbody]
    (by [id]) and one after it (by [name]). *)
Definition versioned : table :=
  table_of "versioned"
    [ Input (hidden_input "v" "" "1");
      Tbody [plain_row [th "Name"]; plain_row [td "Alice"]];
      Input (hidden_input "" "v" "2") ].

(** [<table id=grid><tbody><tr><td>1</td><td>2</td></tr></tbody></table>] *)
Definition grid : table :=
  table_of "grid" [ Tbody [plain_row [td "1"; td "2"]] ].

End Examples.

Import JS DOM Kit Examples.

(** ** Type inference *)

Lemma forallb_pointwise {A : Type} (f g : A -> bool) (l : list A) :
  (forall x, f x = g x) -> forallb f l = forallb g l.
Proof.
  intros Hfg. induction l as [| x l IH]; simpl; [done |].
  by rewrite Hfg, IH.
Qed.

(** C1. [detectColumnType] is the four-step decision list of the
    specification, first match winning, on every column; and the five
    columns the specification names get the types it names. *)
Theorem detectColumnType_decision_order :
  (forall values : list string, detectColumnType values = Spec.inferType values)
  /\ detectColumnType ["1"; "2"; "3"] = TNumber
  /\ detectColumnType ["1.5"; "2"] = TDecimal
  /\ detectColumnType ["true"; "false"; ""] = TBoolean
  /\ detectColumnType ["<b>x</b>"] = TFree
  /\ detectColumnType ["a"; "1"] = TString.
Proof.
  split; [| by vm_compute].
  intros values.
  unfold detectColumnType, Spec.inferType, Spec.steps, Spec.first_match.
  destruct values as [| v values]; [done |].
  change (length (v :: values) =? 0)%nat with false.
  rewrite bool_decide_eq_false_2 by done. cbv iota.
  change (existsb _ (v :: values)) with (existsb Spec.is_complex (v :: values)).
  destruct (existsb Spec.is_complex (v :: values)); [done |].
  rewrite (forallb_pointwise _ (fun v0 => is_empty v0 || Spec.is_boolean_word v0)).
  2: { intros s. unfold Spec.is_boolean_word. simpl. by rewrite orb_false_r. }
  destruct (forallb _ (v :: values)); [done |].
  change (List.filter _ (v :: values)) with (Spec.discard_empty (v :: values)).
  generalize (Spec.discard_empty (v :: values)). intros remaining.
  unfold Spec.numeric_step, default.
  destruct remaining as [| w ws]; [reflexivity |].
  change (length (w :: ws) =? 0)%nat with false. cbv iota.
  change (forallb (fun v0 => negb (isNaN_Number v0)) (w :: ws))
    with (forallb Spec.parses_as_number (w :: ws)).
  by destruct (forallb Spec.parses_as_number (w :: ws)).
Qed.

(** ** Parsing *)

(** C2. Whenever the table has a [thead] and a [tbody], the data rows are
    the rows of the first [tbody] less the first of them, whatever that row
    is.  On a table whose header sits in the [thead] and whose two data rows
    sit in the [tbody], the header row found is the [thead] row, and yet
    the first [tbody] row ("Alice") is skipped as if it were the header: of
    the two data rows of the tree only the second ("Bob") reaches the
    Model. *)
Theorem parseRows_skips_first_tbody_row :
  (forall (t : table) (head body : list tr),
     thead t = Some head -> tbody t = Some body -> dataRows t = drop 1 body)
  /\ construct [HTMLTableElement people] "people" = Return (kit_of people)
  /\ all_rows people
     = [plain_row [th "Name"]; plain_row [td "Alice"]; plain_row [td "Bob"]]
  /\ thead_tr people = Some (plain_row [th "Name"])
  /\ hasHeaderRow people = true
  /\ dataRows people = [plain_row [td "Bob"]]
  /\ obj_rows (getTable (kit_of people))
     = [ {[ "id" := Str "row_0"; "name" := Str "Bob" ]} ].
Proof.
  split.
  - intros t head body Hhead Hbody.
    unfold dataRows, hasHeaderRow, body_rows. by rewrite Hhead, Hbody.
  - vm_compute. repeat split; reflexivity.
Qed.

(** ** Position of a row in the Model and in the tree *)

(** C3. On a table with a [thead] and an empty [tbody], [addRow] renders
    the new row as the only [tbody] row; a following [updateRow] and
    [deleteRow] of that row both report success and change the Model, but
    look for its fragment one position further down and leave the tree as
    it was: the Model says "y" where the tree says "x", then the Model has
    no row where the tree has one. *)
Theorem update_and_delete_miss_the_rendered_row :
  let k0 := kit_of fresh in
  let k1 := (addRow (named "x") k0).2 in
  let updated := updateRow "row_0" (named "y") k1 in
  let deleted := deleteRow "row_0" updated.2 in
  construct [HTMLTableElement fresh] "fresh" = Return k0
  /\ obj_rows (getTable k1) = [ {[ "id" := Str "row_0"; "name" := Str "x" ]} ]
  /\ body_rows (tableElement k1) = [keyed_row "row_0" [td "x"]]
  /\ updated.1 = true
  /\ obj_rows (getTable updated.2) = [ {[ "id" := Str "row_0"; "name" := Str "y" ]} ]
  /\ body_rows (tableElement updated.2) = [keyed_row "row_0" [td "x"]]
  /\ deleted.1 = true
  /\ obj_rows (getTable deleted.2) = []
  /\ body_rows (tableElement deleted.2) = [keyed_row "row_0" [td "x"]].
Proof. vm_compute. repeat split; reflexivity. Qed.

(** ** Looking a row up *)

Lemma has_id_true (id : string) (row : TableRow) :
  has_id id row = true <-> row !! "id" = Some (Str id).
Proof.
  unfold has_id. destruct (row !! "id") as [[| | | |s] |] eqn:Hid; try (split; congruence).
  rewrite String.eqb_eq. split; congruence.
Qed.

Lemma findIndex_None (p : TableRow -> bool) (rows : list TableRow) :
  Forall (fun row => p row = false) rows -> findIndex p rows = None.
Proof.
  induction 1 as [| row rows Hrow _ IH]; simpl; [done |].
  by rewrite Hrow, IH.
Qed.

Lemma findIndex_Some (p : TableRow -> bool) (rows : list TableRow) (i : nat) :
  findIndex p rows = Some i ->
  exists row, rows !! i = Some row /\ p row = true.
Proof.
  revert i. induction rows as [| row rows IH]; intros i; simpl; [done |].
  destruct (p row) eqn:Hp.
  - intros [= <-]. by exists row.
  - destruct (findIndex p rows) as [j |]; simpl; [| done].
    intros [= <-]. by apply IH.
Qed.

Lemma findIndex_Exists (p : TableRow -> bool) (rows : list TableRow) :
  Exists (fun row => p row = true) rows -> exists i, findIndex p rows = Some i.
Proof.
  induction 1 as [row rows Hrow | row rows _ [i IH]]; simpl.
  - rewrite Hrow. by exists 0.
  - destruct (p row); [by exists 0 |]. rewrite IH. by exists (S i).
Qed.

(** The first row a predicate finds is one of the rows it holds of. *)
Lemma findIndex_get_row (p : TableRow -> bool) (k : HTMLTableKit) (i : nat) :
  findIndex p (obj_rows (tableObject k)) = Some i ->
  get_row i k ∈ obj_rows (tableObject k) /\ p (get_row i k) = true.
Proof.
  intros (row & Hi & Hp)%findIndex_Some. unfold get_row. rewrite Hi. simpl.
  split; [| done]. apply list_elem_of_lookup. by exists i.
Qed.

(** ** Failure and cancellation leave the engine as it was *)

(** C8. When no row of the Model has identity [id], [updateRow id updates]
    returns [false] and the engine it leaves is the one it found: Model and
    tree are unchanged. *)
Theorem updateRow_unknown_id (k : HTMLTableKit) (id : string) (updates : TableRow) :
  Forall (fun row => row !! "id" <> Some (Str id)) (obj_rows (getTable k)) ->
  updateRow id updates k = (false, k).
Proof.
  intros Hnone. unfold updateRow. rewrite findIndex_None; [done |].
  eapply Forall_impl; [exact Hnone |]. intros row Hrow. simpl in Hrow.
  destruct (has_id id row) eqn:Hid; [| done].
  by apply has_id_true in Hid.
Qed.

Lemma updateRow_unknown_id_witness :
  Forall (fun row => row !! "id" <> Some (Str "missing-id"))
    (obj_rows (getTable (kit_of staff)))
  /\ updateRow "missing-id" (named "Zed") (kit_of staff) = (false, kit_of staff).
Proof.
  assert (H : Forall (fun row : TableRow => row !! "id" <> Some (Str "missing-id"))
                (obj_rows (getTable (kit_of staff)))).
  { vm_compute. repeat constructor. discriminate. }
  split; [exact H |].
  exact (updateRow_unknown_id (kit_of staff) "missing-id" (named "Zed") H).
Defined.

(** C7. When the Model holds a row of identity [id] and the decision
    function resolves to [false] on it, [deleteRowAsync id d] returns
    [false] and leaves the engine as it found it (Model and tree
    unchanged); the Model still holds a row of that identity. *)
Theorem deleteRowAsync_cancelled (k : HTMLTableKit) (id : string)
  (beforeDelete : TableRow -> bool) :
  Exists (fun row => row !! "id" = Some (Str id)) (obj_rows (getTable k)) ->
  (forall row, row ∈ obj_rows (getTable k) -> row !! "id" = Some (Str id) ->
               beforeDelete row = false) ->
  deleteRowAsync id (Some beforeDelete) k = (false, k)
  /\ Exists (fun row => row !! "id" = Some (Str id))
       (obj_rows (getTable (deleteRowAsync id (Some beforeDelete) k).2)).
Proof.
  intros Hrow Hno.
  assert (Hcall : deleteRowAsync id (Some beforeDelete) k = (false, k)).
  { unfold deleteRowAsync.
    destruct (findIndex_Exists (has_id id) (obj_rows (tableObject k))) as [i Hi].
    { eapply Exists_impl; [exact Hrow |]. intros row. apply has_id_true. }
    rewrite Hi. apply findIndex_get_row in Hi as [Hin Hid].
    unfold settle_delete. rewrite Hno; [done | done |].
    by apply has_id_true. }
  split; [done |]. by rewrite Hcall.
Qed.

Lemma deleteRowAsync_cancelled_witness :
  Exists (fun row : TableRow => row !! "id" = Some (Str "row_0"))
    (obj_rows (getTable (kit_of staff)))
  /\ deleteRowAsync "row_0" (Some (fun _ => false)) (kit_of staff) = (false, kit_of staff).
Proof.
  assert (H : Exists (fun row : TableRow => row !! "id" = Some (Str "row_0"))
                (obj_rows (getTable (kit_of staff)))).
  { vm_compute. by constructor. }
  split; [exact H |].
  exact (proj1 (deleteRowAsync_cancelled (kit_of staff) "row_0" (fun _ => false) H
                  (fun _ _ _ => eq_refl))).
Defined.

(** ** What an update writes *)

Lemma assign_lookup_absent (row updates : TableRow) (key : string) :
  updates !! key = None -> assign row updates !! key = row !! key.
Proof. intros Hkey. unfold assign. by rewrite lookup_union_r. Qed.

Lemma assign_lookup_present (row updates : TableRow) (key : string) (v : value) :
  updates !! key = Some v -> assign row updates !! key = Some v.
Proof. intros Hkey. unfold assign. by rewrite (lookup_union_Some_l _ _ _ v). Qed.

(** C6. When [updateRowAsync id U d] finds the row and the decision
    function resolves to an object [R], the call does what
    [updateRow id R] does: it succeeds and the row becomes
    [Object.assign(row, R)], so a key of [R] takes [R]'s value and a key
    absent from [R], be it a key of [U], keeps the value the row had. *)
Theorem updateRowAsync_result_replaces_updates (k : HTMLTableKit) (id : string)
  (U R row : TableRow) (beforeUpdate : TableRow -> TableRow -> option TableRow)
  (i : nat) :
  findIndex (has_id id) (obj_rows (getTable k)) = Some i ->
  obj_rows (getTable k) !! i = Some row ->
  beforeUpdate row U = Some R ->
  let out := updateRowAsync id U (Some beforeUpdate) k in
  out = updateRow id R k
  /\ out.1 = true
  /\ obj_rows (getTable out.2) !! i = Some (assign row R)
  /\ (forall key v, R !! key = Some v -> assign row R !! key = Some v)
  /\ (forall key, R !! key = None -> assign row R !! key = row !! key).
Proof.
  intros Hi Hrow HR out. subst out. unfold getTable in *.
  unfold updateRowAsync, updateRow, settle_update. rewrite Hi, Hrow, HR.
  repeat split.
  - simpl. apply list_lookup_insert_eq. by eapply lookup_lt_Some.
  - intros key v. apply assign_lookup_present.
  - intros key. apply assign_lookup_absent.
Qed.

Lemma updateRowAsync_result_replaces_updates_witness :
  let U : TableRow := {[ "name" := Str "Ann"; "note" := Str "x" ]} in
  let R : TableRow := {[ "name" := Str "Anna" ]} in
  let out := updateRowAsync "row_0" U (Some (fun _ _ => Some R)) (kit_of staff) in
  out = updateRow "row_0" R (kit_of staff)
  /\ out.1 = true
  /\ obj_rows (getTable out.2) !! 0
     = Some (assign {[ "id" := Str "row_0"; "name" := Str "Alice" ]} R)
  /\ (forall key v, R !! key = Some v ->
        assign {[ "id" := Str "row_0"; "name" := Str "Alice" ]} R !! key = Some v)
  /\ (forall key, R !! key = None ->
        assign {[ "id" := Str "row_0"; "name" := Str "Alice" ]} R !! key
        = ({[ "id" := Str "row_0"; "name" := Str "Alice" ]} : TableRow) !! key).
Proof.
  intros U R.
  refine (updateRowAsync_result_replaces_updates (kit_of staff) "row_0" U R
            {[ "id" := Str "row_0"; "name" := Str "Alice" ]}
            (fun _ _ => Some R) 0 _ _ eq_refl).
  - vm_compute. reflexivity.
  - vm_compute. reflexivity.
Defined.

(** ** Identity under update *)

Lemma commit_update_identities (k : HTMLTableKit) (id : string) (i : nat)
  (row updates : TableRow) :
  obj_rows (tableObject k) !! i = Some row ->
  has_id id row = true ->
  (forall v, updates !! "id" = Some v -> v = Str id) ->
  identities (commit_update i row updates k) = identities k.
Proof.
  intros Hrow Hhas Hid. apply has_id_true in Hhas.
  unfold identities, commit_update. simpl.
  rewrite list_fmap_insert. apply list_insert_id.
  rewrite list_lookup_fmap, Hrow. simpl. unfold get. f_equal.
  destruct (updates !! "id") as [v |] eqn:Hv.
  - rewrite (assign_lookup_present _ _ _ v Hv), Hhas. simpl. symmetry. by apply Hid.
  - by rewrite assign_lookup_absent.
Qed.




(** ** Synthetic identities *)

Lemma backfill_lookup (headers : list TableHeader) (row : TableRow) (key : string)
  (v : value) :
  row !! key = Some v -> backfill headers row !! key = Some v.
Proof.
  unfold backfill. revert row.
  induction headers as [| header headers IH]; intros row Hkey; simpl; [done |].
  apply IH. destruct (row !! header_name header) eqn:Hname; [done |].
  rewrite lookup_insert_ne; [done |]. congruence.
Qed.

Lemma identify_without_id (rowData : TableRow) (next : nat) :
  truthy (get rowData "id") = false ->
  (identify rowData next).2 = S next.
Proof. intros Hid. unfold identify. by rewrite Hid. Qed.

(** Without an ["id"] key in [rowData], the row [addRow] returns is
    identified by the counter. *)
Lemma addRow_synthetic_id (rowData : TableRow) (k : HTMLTableKit) :
  rowData !! "id" = None ->
  get (addRow rowData k).1 "id" = Str (row_name (nextRowId k)).
Proof.
  intros Hid. unfold addRow, candidate, identify, get at 1.
  replace (get rowData "id") with Undefined by (unfold get; by rewrite Hid).
  simpl. erewrite backfill_lookup; [done |].
  rewrite lookup_union_r by done. apply lookup_singleton_eq.
Qed.

Lemma row_name_inj (i j : nat) : row_name i = row_name j -> i = j.
Proof.
  unfold row_name. intros Heq. apply (inj (String.app "row_")) in Heq.
  by apply (inj pretty) in Heq.
Qed.

(** C10. When [rowData] supplies no (truthy) [id] and the decision function
    resolves to [null], [addRowAsync] returns [null] and leaves Model and
    tree as they were, but the counter is one higher: a row next created
    without an id gets index [nextRowId + 1] where, absent the cancelled
    call, it would have got [nextRowId]. *)
Theorem addRowAsync_cancelled_skips_an_id (k : HTMLTableKit) (rowData : TableRow)
  (beforeAdd : TableRow -> option TableRow) :
  truthy (get rowData "id") = false ->
  beforeAdd (candidate rowData k).1 = None ->
  let out := addRowAsync rowData (Some beforeAdd) k in
  out.1 = None
  /\ getTable out.2 = getTable k
  /\ tableElement out.2 = tableElement k
  /\ nextRowId out.2 = S (nextRowId k)
  /\ forall later_data : TableRow, later_data !! "id" = None ->
       get (addRow later_data k).1 "id" = Str (row_name (nextRowId k))
       /\ get (addRow later_data out.2).1 "id" = Str (row_name (S (nextRowId k)))
       /\ nextRowId k < S (nextRowId k).
Proof.
  intros Hid Hcancel out.
  assert (Hout : out = (None, with_next k (S (nextRowId k)))).
  { subst out. unfold addRowAsync. revert Hcancel. unfold candidate.
    pose proof (identify_without_id rowData (nextRowId k) Hid) as Hnext.
    destruct (identify rowData (nextRowId k)) as [newRow next]. simpl in *.
    intros ->. simpl. by rewrite Hnext. }
  rewrite Hout. simpl. repeat split; try done.
  - by apply addRow_synthetic_id.
  - by rewrite (addRow_synthetic_id later_data (with_next k (S (nextRowId k)))).
  - lia.
Qed.

Lemma addRowAsync_cancelled_skips_an_id_witness :
  let out := addRowAsync (named "Carol") (Some (fun _ => None)) (kit_of staff) in
  out.1 = None
  /\ getTable out.2 = getTable (kit_of staff)
  /\ tableElement out.2 = tableElement (kit_of staff)
  /\ nextRowId out.2 = S (nextRowId (kit_of staff))
  /\ forall later_data : TableRow, later_data !! "id" = None ->
       get (addRow later_data (kit_of staff)).1 "id"
       = Str (row_name (nextRowId (kit_of staff)))
       /\ get (addRow later_data out.2).1 "id"
          = Str (row_name (S (nextRowId (kit_of staff))))
       /\ nextRowId (kit_of staff) < S (nextRowId (kit_of staff)).
Proof.
  apply (addRowAsync_cancelled_skips_an_id (kit_of staff) (named "Carol")
           (fun _ => None)).
  - vm_compute. reflexivity.
  - reflexivity.
Defined.

(** ** The counter through a parse *)

(** The rows a parse produces do not depend on the counter it starts from,
    and the counter it ends with is the larger of the one it started from
    and a bound the rows alone decide. *)
Lemma parseDataRows_next (headers : list TableHeader) (rows : list tr) (i next : nat) :
  parseDataRows headers i rows next
  = ((parseDataRows headers i rows 0).1,
     Nat.max next (parseDataRows headers i rows 0).2).
Proof.
  revert i next. induction rows as [| row rows IH]; intros i next; simpl.
  - f_equal. lia.
  - unfold generateRowId. destruct (explicit_id row) as [dataId |].
    + rewrite (IH (S i) next).
      destruct (parseDataRows headers (S i) rows 0) as [parsed bound]. done.
    + rewrite (IH (S i) (Nat.max next (i + 1))), (IH (S i) (Nat.max 0 (i + 1))).
      destruct (parseDataRows headers (S i) rows 0) as [parsed bound]. simpl.
      f_equal. lia.
Qed.

Lemma parseDataRows_idempotent (headers : list TableHeader) (rows : list tr)
  (next : nat) :
  parseDataRows headers 0 rows (parseDataRows headers 0 rows next).2
  = parseDataRows headers 0 rows next.
Proof.
  rewrite (parseDataRows_next headers rows 0 next). simpl.
  rewrite (parseDataRows_next headers rows 0 (Nat.max next _)).
  f_equal. lia.
Qed.

Lemma parseDataRows_grows (headers : list TableHeader) (rows : list tr) (i next : nat) :
  next <= (parseDataRows headers i rows next).2.
Proof. rewrite parseDataRows_next. simpl. lia. Qed.

Lemma parseTable_idempotent (t : table) (next next' : nat) (obj : TableObject) :
  parseTable t next = Return (obj, next') ->
  parseTable t next' = Return (obj, next').
Proof.
  unfold parseTable, parseRows.
  destruct (parseHiddenInputs _ _) as [hidden | message]; [| done].
  pose proof (parseDataRows_idempotent
                (typed_headers (parseHeaders t) (dataRows t)) (dataRows t) next) as Hagain.
  destruct (parseDataRows _ 0 (dataRows t) next) as [rows n1]. simpl in Hagain.
  intros [= <- <-]. by rewrite Hagain.
Qed.

Lemma parseTable_grows (t : table) (next next' : nat) (obj : TableObject) :
  parseTable t next = Return (obj, next') -> next <= next'.
Proof.
  unfold parseTable, parseRows.
  destruct (parseHiddenInputs _ _) as [hidden | message]; [| done].
  pose proof (parseDataRows_grows
                (typed_headers (parseHeaders t) (dataRows t)) (dataRows t) 0 next) as Hle.
  destruct (parseDataRows _ 0 (dataRows t) next) as [rows n1]. simpl in Hle.
  by intros [= <- <-].
Qed.

(** C9. After a [refresh] that returned, a second [refresh] with nothing
    done in between returns too, and the [TableObject] it produces is the
    one the first produced. *)
Theorem refresh_idempotent (k k1 : HTMLTableKit) :
  refresh k = Return k1 ->
  exists k2, refresh k1 = Return k2 /\ getTable k2 = getTable k1.
Proof.
  unfold refresh.
  destruct (parseTable (tableElement k) (nextRowId k)) as [[obj next] | message] eqn:Hparse;
    [| done].
  intros [= <-]. simpl. apply parseTable_idempotent in Hparse. rewrite Hparse.
  by eexists.
Qed.

Lemma refresh_idempotent_witness :
  refresh (kit_of people) = Return (kit_of people)
  /\ exists k2, refresh (kit_of people) = Return k2 /\ getTable k2 = getTable (kit_of people).
Proof.
  assert (H : refresh (kit_of people) = Return (kit_of people)).
  { vm_compute. reflexivity. }
  split; [exact H |].
  exact (refresh_idempotent (kit_of people) (kit_of people) H).
Defined.

(** A key that names no column is left alone by the second pass. *)
Lemma fill_row_lookup_other (headers : list TableHeader) (cells : list cell)
  (rowObject : TableRow) (key : string) :
  Forall (fun header => header_name header <> key) headers ->
  fill_row headers cells rowObject !! key = rowObject !! key.
Proof.
  intros Hkey. revert cells rowObject.
  induction Hkey as [| header headers Hne _ IH]; intros cells rowObject; [done |].
  destruct cells as [| c cells]; [done |]. simpl.
  rewrite IH. by rewrite lookup_insert_ne.
Qed.

Lemma parseDataRows_lookup (headers : list TableHeader) (rows : list tr)
  (i next j : nat) (r : tr) :
  rows !! j = Some r ->
  explicit_id r = None ->
  (parseDataRows headers i rows next).1 !! j
  = Some (fill_row headers (tr_cells r) {[ "id" := Str (row_name (i + j)) ]})
  /\ i + j + 1 <= (parseDataRows headers i rows next).2.
Proof.
  revert i next j. induction rows as [| row rows IH]; intros i next j Hj Hr; [done |].
  simpl. destruct (generateRowId row i next) as [id next1] eqn:Hgen.
  pose proof (parseDataRows_grows headers rows (S i) next1) as Hgrows.
  destruct j as [| j]; simpl in Hj.
  - injection Hj as ->. unfold generateRowId in Hgen. rewrite Hr in Hgen.
    injection Hgen as <- <-.
    destruct (parseDataRows headers (S i) rows _) as [parsed next2]. simpl in *.
    rewrite Nat.add_0_r. split; [done | lia].
  - specialize (IH (S i) next1 j Hj Hr).
    destruct (parseDataRows headers (S i) rows next1) as [parsed next2]. simpl in *.
    replace (i + S j) with (S (i + j)) by lia. split; [tauto | lia].
Qed.

Lemma candidate_nextRowId (rowData : TableRow) (k : HTMLTableKit) :
  nextRowId k <= nextRowId (candidate rowData k).2.
Proof.
  unfold candidate, identify. destruct (truthy (get rowData "id")); simpl; lia.
Qed.

(** No step lowers the counter. *)
Lemma step_nextRowId (k k' : HTMLTableKit) : step k k' -> nextRowId k <= nextRowId k'.
Proof.
  destruct 1 as [rowData k | rowData beforeAdd k | id updates k
                | id updates beforeUpdate k | id k | id beforeDelete k
                | k k' Hrefresh | t k].
  - pose proof (candidate_nextRowId rowData k) as Hle. unfold addRow.
    by destruct (candidate rowData k).
  - pose proof (candidate_nextRowId rowData k) as Hle. unfold addRowAsync.
    destruct (candidate rowData k) as [newRow k1].
    destruct beforeAdd as [decide_add |]; [| done].
    unfold settle_add. by destruct (decide_add newRow).
  - unfold updateRow. destruct (findIndex _ _) as [i |]; [| done].
    by destruct (_ !! i).
  - unfold updateRowAsync. destruct (findIndex _ _) as [i |]; [| done].
    destruct (_ !! i) as [row |]; [| done].
    destruct beforeUpdate as [decide_update |]; [| done].
    unfold settle_update. by destruct (decide_update row updates).
  - unfold deleteRow. by destruct (findIndex _ _).
  - unfold deleteRowAsync. destruct (findIndex _ _) as [i |]; [| done].
    destruct beforeDelete as [decide_delete |]; [| done].
    unfold settle_delete. by destruct (decide_delete _).
  - unfold refresh in Hrefresh.
    destruct (parseTable _ _) as [[obj next] |] eqn:Hparse; [| done].
    injection Hrefresh as <-. simpl. by eapply parseTable_grows.
  - done.
Qed.

Lemma later_nextRowId (k k' : HTMLTableKit) : later k k' -> nextRowId k <= nextRowId k'.
Proof.
  induction 1 as [k | k k1 k' Hstep _ IH]; [done |].
  apply step_nextRowId in Hstep. lia.
Qed.




(** * Further properties of the class *)

#[local] Set Warnings "-clear-no-such-hyp".

(** ** Calls on an identity the Model does not hold *)

Lemma findIndex_unknown (id : string) (rows : list TableRow) :
  Forall (fun row => row !! "id" <> Some (Str id)) rows ->
  findIndex (has_id id) rows = None.
Proof.
  intros Hnone. apply findIndex_None.
  eapply Forall_impl; [exact Hnone |]. intros row Hrow. simpl in Hrow.
  destruct (has_id id row) eqn:Hid; [| done].
  by apply has_id_true in Hid.
Qed.

(** X1. When no row of the Model has identity [id], [deleteRow],
    [deleteRowAsync] and [updateRowAsync] return [false] and leave the
    engine as it was, whatever decision function they are given: the
    decision is never asked for. *)
Theorem unknown_id_fails_before_deciding (k : HTMLTableKit) (id : string)
  (updates : TableRow)
  (beforeUpdate : option (TableRow -> TableRow -> option TableRow))
  (beforeDelete : option (TableRow -> bool)) :
  Forall (fun row => row !! "id" <> Some (Str id)) (obj_rows (getTable k)) ->
  deleteRow id k = (false, k)
  /\ deleteRowAsync id beforeDelete k = (false, k)
  /\ updateRowAsync id updates beforeUpdate k = (false, k).
Proof.
  intros Hnone%findIndex_unknown. unfold getTable in Hnone.
  unfold deleteRow, deleteRowAsync, updateRowAsync. by rewrite Hnone.
Qed.

Lemma unknown_id_fails_before_deciding_witness :
  deleteRow "nobody" (kit_of staff) = (false, kit_of staff)
  /\ deleteRowAsync "nobody" (Some (fun _ => true)) (kit_of staff) = (false, kit_of staff)
  /\ updateRowAsync "nobody" (named "Zed") (Some (fun _ u => Some u)) (kit_of staff)
     = (false, kit_of staff).
Proof.
  apply (unknown_id_fails_before_deciding (kit_of staff) "nobody" (named "Zed")
           (Some (fun _ u => Some u)) (Some (fun _ => true))).
  vm_compute. repeat constructor. discriminate.
Defined.

(** ** Asynchronous calls against their synchronous siblings *)

Lemma assign_self (row : TableRow) : assign row row = row.
Proof. unfold assign. apply map_eq. intros key. rewrite lookup_union. by destruct (row !! key). Qed.

(** X2. Without a decision function, and also with one that approves the
    proposal as it stands (resolves to the candidate row, to the proposed
    updates, to [true]), each asynchronous operation returns what its
    synchronous sibling returns and leaves the same engine. *)
Theorem async_without_veto_is_sync (k : HTMLTableKit) (id : string)
  (rowData updates : TableRow) :
  addRowAsync rowData None k = (Some (addRow rowData k).1, (addRow rowData k).2)
  /\ addRowAsync rowData (Some (fun row => Some row)) k
     = (Some (addRow rowData k).1, (addRow rowData k).2)
  /\ updateRowAsync id updates None k = updateRow id updates k
  /\ updateRowAsync id updates (Some (fun _ proposed => Some proposed)) k
     = updateRow id updates k
  /\ deleteRowAsync id None k = deleteRow id k
  /\ deleteRowAsync id (Some (fun _ => true)) k = deleteRow id k.
Proof.
  unfold addRowAsync, addRow, updateRowAsync, updateRow, deleteRowAsync, deleteRow.
  destruct (candidate rowData k) as [newRow k1]. simpl.
  rewrite assign_self.
  destruct (findIndex _ _) as [i |]; [| done].
  by destruct (_ !! i).
Qed.

(** X3. When the Model holds a row of identity [id] and the decision
    function resolves to [null] on the row found, [updateRowAsync] returns
    [false] and leaves Model, tree and counter as they were. *)
Theorem updateRowAsync_cancelled (k : HTMLTableKit) (id : string) (updates : TableRow)
  (beforeUpdate : TableRow -> TableRow -> option TableRow) :
  Exists (fun row => row !! "id" = Some (Str id)) (obj_rows (getTable k)) ->
  (forall row, row ∈ obj_rows (getTable k) -> row !! "id" = Some (Str id) ->
               beforeUpdate row updates = None) ->
  updateRowAsync id updates (Some beforeUpdate) k = (false, k).
Proof.
  intros Hrow Hno. unfold updateRowAsync, getTable in *.
  destruct (findIndex_Exists (has_id id) (obj_rows (tableObject k))) as [i Hi].
  { eapply Exists_impl; [exact Hrow |]. intros row. apply has_id_true. }
  rewrite Hi. apply findIndex_Some in Hi as (row & Hi & Hid). rewrite Hi.
  unfold settle_update. rewrite Hno; [done | | by apply has_id_true].
  apply list_elem_of_lookup. by exists i.
Qed.

Lemma updateRowAsync_cancelled_witness :
  updateRowAsync "row_0" (named "Ann") (Some (fun _ _ => None)) (kit_of staff)
  = (false, kit_of staff).
Proof.
  apply (updateRowAsync_cancelled (kit_of staff) "row_0" (named "Ann") (fun _ _ => None)).
  - vm_compute. by constructor.
  - done.
Defined.

(** X4. When [rowData] carries a truthy [id] and the decision function
    resolves to [null], [addRowAsync] returns [null] and leaves the whole
    engine, counter included, as it was. *)
Theorem addRowAsync_cancelled_with_id (k : HTMLTableKit) (rowData : TableRow)
  (beforeAdd : TableRow -> option TableRow) :
  truthy (get rowData "id") = true ->
  beforeAdd (candidate rowData k).1 = None ->
  addRowAsync rowData (Some beforeAdd) k = (None, k).
Proof.
  intros Hid. unfold addRowAsync, candidate, identify. rewrite Hid. simpl.
  intros ->. simpl. by destruct k.
Qed.

Lemma addRowAsync_cancelled_with_id_witness :
  addRowAsync {[ "id" := Str "emp7" ]} (Some (fun _ => None)) (kit_of staff)
  = (None, kit_of staff).
Proof.
  apply (addRowAsync_cancelled_with_id (kit_of staff) {[ "id" := Str "emp7" ]}
           (fun _ => None)).
  - vm_compute. reflexivity.
  - reflexivity.
Defined.

(** ** What [addRow] puts in the Model *)

Lemma backfill_dom (headers : list TableHeader) (row : TableRow) :
  dom (backfill headers row) = dom row ∪ list_to_set (header_name <$> headers).
Proof.
  unfold backfill. revert row.
  induction headers as [| header headers IH]; intros row; simpl.
  - set_solver.
  - rewrite IH. destruct (row !! header_name header) eqn:Hname.
    + apply (elem_of_dom_2 (D := gset string)) in Hname. set_solver.
    + rewrite dom_insert_L. set_solver.
Qed.

Lemma backfill_default (headers : list TableHeader) (row : TableRow) (j : nat)
  (header : TableHeader) :
  headers !! j = Some header ->
  (forall j' earlier, j' < j -> headers !! j' = Some earlier ->
                      header_name earlier <> header_name header) ->
  row !! header_name header = None ->
  backfill headers row !! header_name header = Some (getDefaultValue (header_type header)).
Proof.
  revert row j. induction headers as [| h0 headers IH]; intros row j Hj Hfirst Hrow; [done |].
  destruct j as [| j]; simpl in Hj.
  - injection Hj as ->. change (backfill (header :: headers) row)
      with (backfill headers
              (match row !! header_name header with
               | Some _ => row
               | None => <[header_name header := getDefaultValue (header_type header)]> row
               end)).
    rewrite Hrow. apply backfill_lookup. apply lookup_insert_eq.
  - change (backfill (h0 :: headers) row)
      with (backfill headers
              (match row !! header_name h0 with
               | Some _ => row
               | None => <[header_name h0 := getDefaultValue (header_type h0)]> row
               end)).
    apply (IH _ j Hj).
    + intros j' earlier Hlt Hearlier. apply (Hfirst (S j') earlier); [lia | done].
    + destruct (row !! header_name h0); [done |].
      rewrite lookup_insert_ne; [done |]. apply (Hfirst 0 h0); [lia | done].
Qed.

(** A key [rowData] holds reaches the returned row with [rowData]'s value. *)
Lemma addRow_lookup (k : HTMLTableKit) (rowData : TableRow) (key : string) (v : value) :
  rowData !! key = Some v -> (addRow rowData k).1 !! key = Some v.
Proof.
  intros Hkey. unfold addRow, candidate, identify.
  destruct (truthy _); simpl; apply backfill_lookup; by apply lookup_union_Some_l.
Qed.


(** X6. An ["id"] key of [rowData] is always the identity of the row
    [addRow] returns, even a falsy one; the counter is consumed exactly
    when that value is falsy. *)
Theorem addRow_caller_id (k : HTMLTableKit) (rowData : TableRow) (v : value) :
  rowData !! "id" = Some v ->
  get (addRow rowData k).1 "id" = v
  /\ nextRowId (addRow rowData k).2
     = if truthy v then nextRowId k else S (nextRowId k).
Proof.
  intros Hid.
  unfold get at 1. rewrite (addRow_lookup k rowData "id" v Hid). split; [done |].
  unfold addRow, candidate, identify, get. rewrite Hid. simpl.
  by destruct (truthy v).
Qed.

Lemma addRow_caller_id_witness :
  get (addRow {[ "id" := Str "" ]} (kit_of staff)).1 "id" = Str ""
  /\ nextRowId (addRow {[ "id" := Str "" ]} (kit_of staff)).2
     = if truthy (Str "") then nextRowId (kit_of staff) else S (nextRowId (kit_of staff)).
Proof.
  apply (addRow_caller_id (kit_of staff) {[ "id" := Str "" ]} (Str "")).
  vm_compute. reflexivity.
Defined.

(** ** Synthetic identities over a history *)

(** X7. Two rows created by [addRow] without an ["id"], the second at any
    later time, get different identities. *)
Theorem synthetic_ids_are_distinct (k k' : HTMLTableKit) (first second : TableRow) :
  first !! "id" = None ->
  second !! "id" = None ->
  later (addRow first k).2 k' ->
  get (addRow first k).1 "id" <> get (addRow second k').1 "id".
Proof.
  intros Hfirst Hsecond Hlater%later_nextRowId.
  rewrite !addRow_synthetic_id by done.
  assert (Hnext : nextRowId (addRow first k).2 = S (nextRowId k)).
  { unfold addRow, candidate, identify, get. by rewrite Hfirst. }
  intros Heq.
  assert (Hname : row_name (nextRowId k) = row_name (nextRowId k')) by congruence.
  apply row_name_inj in Hname. lia.
Qed.

Lemma synthetic_ids_are_distinct_witness :
  get (addRow (named "Bob") (kit_of staff)).1 "id"
  <> get (addRow (named "Carol")
            (deleteRow "row_1" (addRow (named "Bob") (kit_of staff)).2).2).1 "id".
Proof.
  apply (synthetic_ids_are_distinct (kit_of staff)
           (deleteRow "row_1" (addRow (named "Bob") (kit_of staff)).2).2
           (named "Bob") (named "Carol")); [done | done |].
  apply rtc_once. apply step_deleteRow.
Defined.

(** ** What the operations leave alone *)

Lemma with_rows_same (obj : TableObject) : with_rows obj (obj_rows obj) = obj.
Proof. by destruct obj. Qed.

(** X8. Whatever they are given, the six operations change nothing of the
    Model but its rows: table id, name, columns (names, types and order)
    and hidden values stay as the last parse left them. *)
Theorem operations_change_rows_only (k : HTMLTableKit) (id : string)
  (rowData updates : TableRow)
  (beforeAdd : option (TableRow -> option TableRow))
  (beforeUpdate : option (TableRow -> TableRow -> option TableRow))
  (beforeDelete : option (TableRow -> bool)) :
  Forall (fun k' => getTable k' = with_rows (getTable k) (obj_rows (getTable k')))
    [ (addRow rowData k).2; (addRowAsync rowData beforeAdd k).2;
      (updateRow id updates k).2; (updateRowAsync id updates beforeUpdate k).2;
      (deleteRow id k).2; (deleteRowAsync id beforeDelete k).2 ].
Proof.
  unfold getTable, addRow, addRowAsync, updateRow, updateRowAsync, deleteRow,
    deleteRowAsync, settle_add, settle_update, settle_delete, candidate.
  destruct (identify rowData (nextRowId k)) as [newRow next].
  repeat constructor; simpl;
    repeat match goal with
           | |- context [match ?x with _ => _ end] => destruct x; simpl
           end;
    by rewrite ?with_rows_same.
Qed.

(** ** First match wins *)

Lemma findIndex_first (p : TableRow -> bool) (rows : list TableRow) (i : nat) :
  findIndex p rows = Some i ->
  forall j row, j < i -> rows !! j = Some row -> p row = false.
Proof.
  revert i. induction rows as [| r rows IH]; intros i; simpl; [done |].
  destruct (p r) eqn:Hp.
  - intros [= <-] j row Hlt. lia.
  - destruct (findIndex p rows) as [i' |]; simpl; [| done].
    intros [= <-] [| j] row Hlt; simpl.
    + by intros [= <-].
    + apply (IH i'); [done | lia].
Qed.

(** The position [findIndex] returns for an identity the Model holds. *)
Lemma findIndex_position (id : string) (rows : list TableRow) :
  Exists (fun row => row !! "id" = Some (Str id)) rows ->
  exists i row,
    findIndex (has_id id) rows = Some i
    /\ rows !! i = Some row
    /\ row !! "id" = Some (Str id)
    /\ forall j earlier, j < i -> rows !! j = Some earlier ->
                         earlier !! "id" <> Some (Str id).
Proof.
  intros Hrow.
  destruct (findIndex_Exists (has_id id) rows) as [i Hi].
  { eapply Exists_impl; [exact Hrow |]. intros row. apply has_id_true. }
  destruct (findIndex_Some _ _ _ Hi) as (row & Hlookup & Hid).
  exists i, row. repeat split; [done | done | by apply has_id_true |].
  intros j earlier Hlt Hj Hearlier%has_id_true.
  by rewrite (findIndex_first _ _ _ Hi j earlier Hlt Hj) in Hearlier.
Qed.

(** X9. When the Model holds rows of identity [id], [updateRow] succeeds
    on the earliest of them: that row becomes [Object.assign(row, updates)]
    (a key of [updates] takes its value, any other key keeps the row's, no
    column is backfilled), every other row, the number of rows and the
    counter stay as they were. *)
Theorem updateRow_model (k : HTMLTableKit) (id : string) (updates : TableRow) :
  Exists (fun row => row !! "id" = Some (Str id)) (obj_rows (getTable k)) ->
  exists i row,
    obj_rows (getTable k) !! i = Some row
    /\ row !! "id" = Some (Str id)
    /\ (forall j earlier, j < i -> obj_rows (getTable k) !! j = Some earlier ->
                          earlier !! "id" <> Some (Str id))
    /\ (updateRow id updates k).1 = true
    /\ obj_rows (getTable (updateRow id updates k).2)
       = <[i := updates ∪ row]> (obj_rows (getTable k))
    /\ dom (updates ∪ row) = dom updates ∪ dom row
    /\ nextRowId (updateRow id updates k).2 = nextRowId k.
Proof.
  intros (i & row & Hi & Hrow & Hid & Hfirst)%findIndex_position.
  exists i, row. unfold getTable, updateRow in *. rewrite Hi, Hrow. simpl.
  repeat split; try done. apply dom_union_L.
Qed.

Lemma updateRow_model_witness :
  exists i row,
    obj_rows (getTable (kit_of staff)) !! i = Some row
    /\ row !! "id" = Some (Str "row_0")
    /\ (forall j earlier, j < i -> obj_rows (getTable (kit_of staff)) !! j = Some earlier ->
                          earlier !! "id" <> Some (Str "row_0"))
    /\ (updateRow "row_0" (named "Ann") (kit_of staff)).1 = true
    /\ obj_rows (getTable (updateRow "row_0" (named "Ann") (kit_of staff)).2)
       = <[i := named "Ann" ∪ row]> (obj_rows (getTable (kit_of staff)))
    /\ dom (named "Ann" ∪ row) = dom (named "Ann") ∪ dom row
    /\ nextRowId (updateRow "row_0" (named "Ann") (kit_of staff)).2
       = nextRowId (kit_of staff).
Proof.
  apply (updateRow_model (kit_of staff) "row_0" (named "Ann")).
  vm_compute. by constructor.
Defined.

(** X10. When the Model holds rows of identity [id], [deleteRow] succeeds
    and removes the earliest of them and no other: the rows before it and
    after it keep their order, and the Model is one row shorter. *)
Theorem deleteRow_model (k : HTMLTableKit) (id : string) :
  Exists (fun row => row !! "id" = Some (Str id)) (obj_rows (getTable k)) ->
  exists i row,
    obj_rows (getTable k) !! i = Some row
    /\ row !! "id" = Some (Str id)
    /\ (forall j earlier, j < i -> obj_rows (getTable k) !! j = Some earlier ->
                          earlier !! "id" <> Some (Str id))
    /\ (deleteRow id k).1 = true
    /\ obj_rows (getTable (deleteRow id k).2)
       = take i (obj_rows (getTable k)) ++ drop (S i) (obj_rows (getTable k))
    /\ S (length (obj_rows (getTable (deleteRow id k).2)))
       = length (obj_rows (getTable k)).
Proof.
  intros (i & row & Hi & Hrow & Hid & Hfirst)%findIndex_position.
  exists i, row. unfold getTable, deleteRow in *. rewrite Hi. simpl.
  repeat split; try done.
  - apply delete_take_drop.
  - rewrite length_delete by eauto. apply lookup_lt_Some in Hrow. lia.
Qed.

Lemma deleteRow_model_witness :
  exists i row,
    obj_rows (getTable (kit_of staff)) !! i = Some row
    /\ row !! "id" = Some (Str "row_0")
    /\ (forall j earlier, j < i -> obj_rows (getTable (kit_of staff)) !! j = Some earlier ->
                          earlier !! "id" <> Some (Str "row_0"))
    /\ (deleteRow "row_0" (kit_of staff)).1 = true
    /\ obj_rows (getTable (deleteRow "row_0" (kit_of staff)).2)
       = take i (obj_rows (getTable (kit_of staff)))
         ++ drop (S i) (obj_rows (getTable (kit_of staff)))
    /\ S (length (obj_rows (getTable (deleteRow "row_0" (kit_of staff)).2)))
       = length (obj_rows (getTable (kit_of staff))).
Proof.
  apply (deleteRow_model (kit_of staff) "row_0").
  vm_compute. by constructor.
Defined.

(** ** Editing the tree and reading it back *)

Lemma tbody_edit_tbody (g : list tr -> list tr) (ns : list node) (rs : list tr) :
  head (omap tbody_rows ns) = Some rs ->
  head (omap tbody_rows (edit_tbody g ns)) = Some (g rs).
Proof.
  induction ns as [| n ns IH]; [done |].
  destruct n; simpl; try exact IH. by intros [= ->].
Qed.

Lemma thead_edit_tbody (g : list tr -> list tr) (ns : list node) :
  omap thead_rows (edit_tbody g ns) = omap thead_rows ns.
Proof.
  induction ns as [| n ns IH]; [done |].
  destruct n; simpl; first [done | exact IH | f_equal; exact IH].
Qed.

Lemma flat_rows_Tr (rs : list tr) : flat_map rows_of (Tr <$> rs) = rs.
Proof. induction rs as [| r rs IH]; simpl; [done |]. f_equal. exact IH. Qed.

Lemma no_tbody_Tr (rs : list tr) : omap tbody_rows (Tr <$> rs) = [].
Proof. by induction rs. Qed.

Lemma delete_app_l {A : Type} (k : nat) (l1 l2 : list A) :
  k < length l1 -> delete k (l1 ++ l2) = delete k l1 ++ l2.
Proof.
  revert k. induction l1 as [| x l1 IH]; intros [| k] Hk; simpl in *; try lia; [done |].
  rewrite IH; [done | lia].
Qed.

Lemma delete_app_r {A : Type} (k : nat) (l1 l2 : list A) :
  length l1 <= k -> delete k (l1 ++ l2) = l1 ++ delete (k - length l1) l2.
Proof.
  revert k. induction l1 as [| x l1 IH]; intros k Hk; simpl in *.
  - by rewrite Nat.sub_0_r.
  - destruct k as [| k]; [lia |]. simpl. rewrite IH; [done | lia].
Qed.

Section edit_rows.
Variable g : nat -> list tr -> list tr.
Hypothesis g_nil : forall k, g k [] = [].
Hypothesis g_app_l :
  forall k l1 l2, k < length l1 -> g k (l1 ++ l2) = g k l1 ++ l2.
Hypothesis g_app_r :
  forall k l1 l2, length l1 <= k -> g k (l1 ++ l2) = l1 ++ g (k - length l1) l2.

Lemma flat_rows_edit_node (k : nat) (n : node) :
  flat_map rows_of (edit_node (g k) n) = g k (rows_of n).
Proof.
  destruct n; simpl; rewrite ?app_nil_r, ?g_nil; try done.
  apply flat_rows_Tr.
Qed.

Lemma all_rows_edit_row_at (k : nat) (ns : list node) :
  flat_map rows_of (edit_row_at g k ns) = g k (flat_map rows_of ns).
Proof.
  revert k. induction ns as [| n ns IH]; intros k; simpl; [by rewrite g_nil |].
  destruct (Nat.ltb_spec k (length (rows_of n))) as [Hlt | Hge].
  - rewrite flat_map_app, flat_rows_edit_node. by rewrite g_app_l.
  - simpl. rewrite IH. by rewrite g_app_r.
Qed.

Lemma no_tbody_edit_row_at (k : nat) (ns : list node) :
  omap tbody_rows ns = [] -> omap tbody_rows (edit_row_at g k ns) = [].
Proof.
  revert k. induction ns as [| n ns IH]; intros k Hns; [done |].
  assert (Hn : tbody_rows n = None /\ omap tbody_rows ns = []).
  { revert Hns. cbn. by destruct (tbody_rows n). }
  destruct Hn as [Hn Htail].
  change (edit_row_at g k (n :: ns))
    with (if (k <? length (rows_of n))%nat then edit_node (g k) n ++ ns
          else n :: edit_row_at g (k - length (rows_of n)) ns).
  destruct (k <? length (rows_of n))%nat.
  - rewrite omap_app, Htail, app_nil_r.
    destruct n; try done. apply no_tbody_Tr.
  - cbn. rewrite Hn. by apply IH.
Qed.
End edit_rows.

Lemma head_None_nil {A : Type} (l : list A) : head l = None -> l = [].
Proof. by destruct l. Qed.

Lemma body_rows_appendChild (r : tr) (t : table) :
  body_rows (appendChild r t) = body_rows t ++ [r].
Proof.
  unfold body_rows, appendChild, tbody.
  destruct (head (omap tbody_rows (table_children t))) as [rs |] eqn:Hbody; simpl.
  - by rewrite (tbody_edit_tbody _ _ rs).
  - apply head_None_nil in Hbody. rewrite omap_app, Hbody. simpl.
    unfold all_rows. simpl. by rewrite flat_map_app.
Qed.

Lemma body_rows_alter (f : tr -> tr) (k : nat) (t : table) :
  body_rows (alter_body_row f k t) = alter f k (body_rows t).
Proof.
  unfold body_rows, alter_body_row, tbody.
  destruct (head (omap tbody_rows (table_children t))) as [rs |] eqn:Hbody; simpl.
  - by rewrite (tbody_edit_tbody _ _ rs).
  - apply head_None_nil in Hbody.
    rewrite (no_tbody_edit_row_at (alter f)) by done. simpl. unfold all_rows. simpl.
    apply (all_rows_edit_row_at (alter f)); [done | |].
    + intros. by apply alter_app_l.
    + intros i l1 l2 Hle. replace i with (length l1 + (i - length l1)) at 1 by lia.
      apply alter_app_r.
Qed.

Lemma body_rows_remove (k : nat) (t : table) :
  body_rows (remove_body_row k t) = delete k (body_rows t).
Proof.
  unfold body_rows, remove_body_row, tbody.
  destruct (head (omap tbody_rows (table_children t))) as [rs |] eqn:Hbody; simpl.
  - by rewrite (tbody_edit_tbody _ _ rs).
  - apply head_None_nil in Hbody.
    rewrite (no_tbody_edit_row_at delete) by done. simpl. unfold all_rows. simpl.
    apply (all_rows_edit_row_at delete); [done | |].
    + intros. by apply delete_app_l.
    + intros. by apply delete_app_r.
Qed.

(** ** What the renderer writes *)


Lemma fmap_alter_same {A B : Type} (f : A -> B) (g : A -> A) (k : nat) (l : list A) :
  (forall x, f (g x) = f x) -> f <$> alter g k l = f <$> l.
Proof.
  intros Hfg. apply list_eq. intros j.
  rewrite !list_lookup_fmap, list_lookup_alter.
  destruct (decide (k = j)) as [-> |]; [| done].
  destruct (l !! j); simpl; [| done]. by rewrite Hfg.
Qed.

Lemma rewrite_cells_kinds (headers : list TableHeader) (row : TableRow) (domRow : tr) :
  cell_th <$> tr_cells (rewrite_cells headers row domRow) = cell_th <$> tr_cells domRow.
Proof.
  apply list_eq. intros j. simpl.
  rewrite !list_lookup_fmap, list_lookup_imap.
  destruct (tr_cells domRow !! j); simpl; [| done].
  by destruct (headers !! j).
Qed.


(** X13. [deleteRowFromDOM] removes body row number
    [startIndex + rowIndex] and no other; when there is no such row the
    body rows are as they were. *)
Theorem deleteRowFromDOM_structure (rowIndex : nat) (t : table) :
  let position := (if hasHeaderRow t then 1 else 0) + rowIndex in
  body_rows (deleteRowFromDOM rowIndex t)
  = take position (body_rows t) ++ drop (S position) (body_rows t)
  /\ (length (body_rows t) <= position ->
      body_rows (deleteRowFromDOM rowIndex t) = body_rows t).
Proof.
  intros position. subst position. unfold deleteRowFromDOM.
  rewrite body_rows_remove. split; [apply delete_take_drop |].
  intros Hout. rewrite delete_take_drop.
  rewrite take_ge, drop_ge by lia. apply app_nil_r.
Qed.

(** ** Tables whose header row heads the [tbody] *)

Lemma first_child_edit_tbody (g : list tr -> list tr) (ns : list node) (rs : list tr)
  (f : nat -> node -> list tr) :
  (forall j rows, f j (Tbody rows) = take 1 rows) ->
  head (omap tbody_rows ns) = Some rs ->
  take 1 (g rs) = take 1 rs ->
  imap f (edit_tbody g ns) = imap f ns.
Proof.
  intros Hf Hrs Hg. revert f Hf Hrs.
  induction ns as [| n ns IH]; intros f Hf Hrs; [done |].
  destruct n; cbn in Hrs;
    try (cbn [edit_tbody]; rewrite !imap_cons; f_equal; apply IH; [by intros; apply Hf | done]).
  injection Hrs as ->. cbn [edit_tbody]. rewrite !imap_cons, !Hf. by rewrite Hg.
Qed.

Lemma header_in_tbody_edit (g : list tr -> list tr) (t : table) (header : tr)
  (rest rest' : list tr) :
  header_in_tbody t header rest ->
  g (header :: rest) = header :: rest' ->
  header_in_tbody (with_children t (edit_tbody g (table_children t))) header rest'.
Proof.
  intros (Hhead & Hbody & Hfirst & Hths) Hg. unfold header_in_tbody, thead, tbody in *.
  simpl. repeat split; [| | | done].
  - by rewrite thead_edit_tbody.
  - by rewrite (tbody_edit_tbody _ _ (header :: rest)), Hg.
  - unfold tr_first_child in *. simpl.
    rewrite (first_child_edit_tbody g _ (header :: rest)); [done | done | done |].
    by rewrite Hg.
Qed.

Lemma header_in_tbody_reads (t : table) (header : tr) (rest : list tr) :
  header_in_tbody t header rest ->
  hasHeaderRow t = true /\ body_rows t = header :: rest /\ dataRows t = rest.
Proof.
  intros (Hhead & Hbody & Hfirst & Hths).
  assert (Hhas : hasHeaderRow t = true).
  { unfold hasHeaderRow. rewrite Hhead, Hfirst.
    destruct (ths header); [done |]. done. }
  unfold dataRows, body_rows. by rewrite Hhas, Hbody.
Qed.

Lemma appendChild_in_tbody (r : tr) (t : table) (header : tr) (rest : list tr) :
  header_in_tbody t header rest ->
  header_in_tbody (appendChild r t) header (rest ++ [r]).
Proof.
  intros Hshape. pose proof Hshape as (_ & Hbody & _).
  unfold appendChild. rewrite Hbody. by apply (header_in_tbody_edit _ _ _ rest).
Qed.

Lemma updateRowInDOM_in_tbody (headers : list TableHeader) (row : TableRow) (i : nat)
  (t : table) (header : tr) (rest : list tr) :
  header_in_tbody t header rest ->
  header_in_tbody (updateRowInDOM headers row i t) header
    (alter (rewrite_cells headers row) i rest).
Proof.
  intros Hshape. pose proof Hshape as (_ & Hbody & _).
  destruct (header_in_tbody_reads _ _ _ Hshape) as (Hhas & _).
  unfold updateRowInDOM, alter_body_row. rewrite Hhas, Hbody.
  by apply (header_in_tbody_edit _ _ _ rest).
Qed.

Lemma deleteRowFromDOM_in_tbody (i : nat) (t : table) (header : tr) (rest : list tr) :
  header_in_tbody t header rest ->
  header_in_tbody (deleteRowFromDOM i t) header (delete i rest).
Proof.
  intros Hshape. pose proof Hshape as (_ & Hbody & _).
  destruct (header_in_tbody_reads _ _ _ Hshape) as (Hhas & _).
  unfold deleteRowFromDOM, remove_body_row. rewrite Hhas, Hbody.
  by apply (header_in_tbody_edit _ _ _ rest).
Qed.



Lemma parseDataRows_length (headers : list TableHeader) (rows : list tr) (i next : nat) :
  length (parseDataRows headers i rows next).1 = length rows.
Proof.
  revert i next. induction rows as [| row rows IH]; intros i next; simpl; [done |].
  destruct (generateRowId row i next) as [id next1].
  specialize (IH (S i) next1).
  destruct (parseDataRows headers (S i) rows next1) as [parsed next2]. simpl in *.
  by rewrite IH.
Qed.

Lemma parseTable_length (t : table) (next next' : nat) (obj : TableObject) :
  parseTable t next = Return (obj, next') ->
  length (obj_rows obj) = length (dataRows t).
Proof.
  unfold parseTable, parseRows.
  destruct (parseHiddenInputs _ _) as [hidden | message]; [| done].
  pose proof (parseDataRows_length
                (typed_headers (parseHeaders t) (dataRows t)) (dataRows t) 0 next) as Hlen.
  destruct (parseDataRows _ 0 (dataRows t) next) as [rows n1].
  by intros [= <- <-].
Qed.

Lemma delete_out_of_range {A : Type} (i : nat) (l : list A) :
  length l <= i -> delete i l = l.
Proof.
  intros Hout. rewrite delete_take_drop, take_ge, drop_ge by lia. apply app_nil_r.
Qed.

(** The rows of Model and tree are as many, on a table of that shape. *)
Lemma call_keeps_count (k k' : HTMLTableKit) (header : tr) (rest : list tr) :
  call k k' ->
  header_in_tbody (tableElement k) header rest ->
  length (obj_rows (tableObject k)) = length rest ->
  exists rest',
    header_in_tbody (tableElement k') header rest'
    /\ length (obj_rows (tableObject k')) = length rest'.
Proof.
  intros Hcall Hshape Hcount.
  assert (Hadd : forall newRow next,
            exists rest',
              header_in_tbody (tableElement (commit_add newRow (with_next k next)))
                header rest'
              /\ length (obj_rows (tableObject (commit_add newRow (with_next k next))))
                 = length rest').
  { intros newRow next. eexists. split; [by apply appendChild_in_tbody |].
    simpl. rewrite !length_app. simpl. lia. }
  assert (Hupdate : forall i row updates,
            exists rest',
              header_in_tbody (tableElement (commit_update i row updates k)) header rest'
              /\ length (obj_rows (tableObject (commit_update i row updates k)))
                 = length rest').
  { intros i row updates. eexists. split; [by apply updateRowInDOM_in_tbody |].
    simpl. by rewrite length_insert, length_alter. }
  assert (Hdelete : forall i,
            exists rest',
              header_in_tbody (tableElement (commit_delete i k)) header rest'
              /\ length (obj_rows (tableObject (commit_delete i k))) = length rest').
  { intros i. eexists. split; [by apply deleteRowFromDOM_in_tbody |].
    simpl. destruct (decide (i < length rest)) as [Hlt | Hge].
    - rewrite !length_delete; [lia | |];
        apply lookup_lt_is_Some; lia.
    - rewrite !delete_out_of_range by lia. done. }
  assert (Hsame : exists rest',
            header_in_tbody (tableElement k) header rest'
            /\ length (obj_rows (tableObject k)) = length rest') by eauto.
  destruct Hcall as [rowData k | rowData beforeAdd k | id updates k
                    | id updates beforeUpdate k | id k | id beforeDelete k].
  - unfold addRow, candidate. destruct (identify _ _) as [newRow next]. apply Hadd.
  - unfold addRowAsync, candidate, settle_add.
    destruct (identify _ _) as [newRow next].
    destruct beforeAdd as [decide_add |]; [| apply Hadd].
    destruct (decide_add _); [apply Hadd | done].
  - unfold updateRow. destruct (findIndex _ _) as [i |]; [| done].
    destruct (_ !! i); [apply Hupdate | done].
  - unfold updateRowAsync, settle_update. destruct (findIndex _ _) as [i |]; [| done].
    destruct (_ !! i) as [row |]; [| done].
    destruct beforeUpdate as [decide_update |]; [| apply Hupdate].
    destruct (decide_update row updates); [apply Hupdate | done].
  - unfold deleteRow. destruct (findIndex _ _) as [i |]; [apply Hdelete | done].
  - unfold deleteRowAsync, settle_delete. destruct (findIndex _ _) as [i |]; [| done].
    destruct beforeDelete as [decide_delete |]; [| apply Hdelete].
    destruct (decide_delete _); [apply Hdelete | done].
Qed.



(** ** What a parse puts in the Model *)

Lemma typed_headers_names (headers : list TableHeader) (rows : list tr) :
  header_name <$> typed_headers headers rows = header_name <$> headers.
Proof.
  apply list_eq. intros j. unfold typed_headers.
  rewrite !list_lookup_fmap, list_lookup_imap. by destruct (headers !! j).
Qed.

Lemma fill_row_dom (headers : list TableHeader) (cells : list cell) (rowObject : TableRow) :
  dom (fill_row headers cells rowObject)
  = dom rowObject ∪ list_to_set (header_name <$> take (length cells) headers).
Proof.
  revert cells rowObject.
  induction headers as [| header headers IH]; intros cells rowObject.
  - destruct cells; simpl; set_solver.
  - destruct cells as [| c cells]; simpl; [set_solver |].
    rewrite IH, dom_insert_L. set_solver.
Qed.

Lemma parseDataRows_lookup_any (headers : list TableHeader) (rows : list tr)
  (i next j : nat) (r : tr) :
  rows !! j = Some r ->
  (parseDataRows headers i rows next).1 !! j
  = Some (fill_row headers (tr_cells r)
            {[ "id" := Str (default (row_name (i + j)) (explicit_id r)) ]}).
Proof.
  revert i next j. induction rows as [| row rows IH]; intros i next j Hj; [done |].
  simpl. destruct (generateRowId row i next) as [id next1] eqn:Hgen.
  destruct j as [| j]; simpl in Hj.
  - injection Hj as ->. unfold generateRowId in Hgen.
    destruct (parseDataRows headers (S i) rows next1) as [parsed next2]. simpl.
    rewrite Nat.add_0_r.
    destruct (explicit_id r); by injection Hgen as <- _.
  - specialize (IH (S i) next1 j Hj).
    destruct (parseDataRows headers (S i) rows next1) as [parsed next2]. simpl in *.
    by replace (i + S j) with (S (i + j)) by lia.
Qed.

Lemma parseDataRows_bound (headers : list TableHeader) (rows : list tr) (i next : nat) :
  (parseDataRows headers i rows next).2 <= Nat.max next (i + length rows).
Proof.
  revert i next. induction rows as [| row rows IH]; intros i next; simpl; [lia |].
  unfold generateRowId. destruct (explicit_id row).
  - specialize (IH (S i) next).
    destruct (parseDataRows headers (S i) rows next) as [parsed next2]. simpl in *. lia.
  - specialize (IH (S i) (Nat.max next (i + 1))).
    destruct (parseDataRows headers (S i) rows _) as [parsed next2]. simpl in *. lia.
Qed.



Lemma parseTable_lookup (t : table) (start next i : nat) (obj : TableObject) (r : tr) :
  parseTable t start = Return (obj, next) ->
  dataRows t !! i = Some r ->
  obj_rows obj !! i
  = Some (fill_row (obj_headers obj) (tr_cells r)
            {[ "id" := Str (default (row_name i) (explicit_id r)) ]}).
Proof.
  unfold parseTable, parseRows.
  destruct (parseHiddenInputs _ _) as [hidden | message]; [| done].
  pose proof (fun r => parseDataRows_lookup_any
                (typed_headers (parseHeaders t) (dataRows t)) (dataRows t) 0 start i r)
    as Hrows.
  destruct (parseDataRows _ 0 (dataRows t) start) as [rows n1].
  intros [= <- <-] Hi. simpl in *. by apply Hrows.
Qed.



(** ** Deleting under unique identities *)

(** X18. When the identities of the Model's rows are pairwise different
    and one of them is [id], [deleteRow id] leaves no row of that identity
    (a second [deleteRow id] or an [updateRow id] then fails), and the
    identities that remain are still pairwise different. *)
Theorem deleteRow_removes_the_identity (k : HTMLTableKit) (id : string)
  (updates : TableRow) :
  NoDup (identities k) ->
  Exists (fun row => row !! "id" = Some (Str id)) (obj_rows (getTable k)) ->
  let k' := (deleteRow id k).2 in
  Forall (fun row => row !! "id" <> Some (Str id)) (obj_rows (getTable k'))
  /\ NoDup (identities k')
  /\ deleteRow id k' = (false, k')
  /\ updateRow id updates k' = (false, k').
Proof.
  intros Hunique (i & row & Hi & Hrow & Hid & _)%findIndex_position k'.
  unfold getTable in Hi, Hrow.
  assert (Hrows : obj_rows (getTable k') = delete i (obj_rows (tableObject k))).
  { subst k'. unfold deleteRow, getTable. by rewrite Hi. }
  assert (Hgone : Forall (fun other => other !! "id" <> Some (Str id))
                    (obj_rows (getTable k'))).
  { rewrite Hrows. apply Forall_lookup. intros j other Hj Hother.
    assert (Hat : exists j', j' <> i /\ obj_rows (tableObject k) !! j' = Some other).
    { destruct (decide (j < i)) as [Hlt | Hge].
      - exists j. split; [lia |]. by rewrite list_lookup_delete_lt in Hj.
      - exists (S j). split; [lia |]. rewrite list_lookup_delete_ge in Hj; [done | lia]. }
    destruct Hat as (j' & Hne & Hj'). apply Hne.
    apply (NoDup_lookup (identities k) j' i (Str id)); [done | |];
      unfold identities, get; rewrite list_lookup_fmap.
    - by rewrite Hj'; simpl; rewrite Hother.
    - by rewrite Hrow; simpl; rewrite Hid. }
  split; [done |]. split.
  - unfold identities. unfold getTable in Hrows. rewrite Hrows, list_fmap_delete.
    eapply sublist_NoDup; [exact Hunique |]. apply sublist_delete.
  - apply findIndex_unknown in Hgone. unfold getTable in Hgone.
    unfold deleteRow, updateRow. by rewrite Hgone.
Qed.

Lemma deleteRow_removes_the_identity_witness :
  let k := (addRow (named "Bob") (kit_of staff)).2 in
  let k' := (deleteRow "row_0" k).2 in
  Forall (fun row : TableRow => row !! "id" <> Some (Str "row_0")) (obj_rows (getTable k'))
  /\ NoDup (identities k')
  /\ deleteRow "row_0" k' = (false, k')
  /\ updateRow "row_0" (named "Ann") k' = (false, k').
Proof.
  intros k.
  apply (deleteRow_removes_the_identity k "row_0" (named "Ann")).
  - vm_compute. repeat constructor; rewrite ?list_elem_of_In; simpl; intuition discriminate.
  - vm_compute. by constructor.
Defined.

(** ** What a column's type says about its values *)

Lemma is_empty_true (s : string) : is_empty s = true <-> s = "".
Proof. by destruct s. Qed.

Lemma forallb_false {A : Type} (f : A -> bool) (l : list A) :
  forallb f l = false -> exists x, In x l /\ f x = false.
Proof.
  induction l as [| x l IH]; simpl; [done |].
  destruct (f x) eqn:Hx; simpl.
  - intros (y & Hy & Hfy)%IH. exists y. auto.
  - intros _. exists x. auto.
Qed.

Lemma filter_nonempty_In (values : list string) (v : string) :
  In v (List.filter (fun v => negb (is_empty v)) values) <-> In v values /\ v <> "".
Proof.
  rewrite filter_In. rewrite negb_true_iff.
  destruct v; simpl; split; intros [Hin Hv]; split; done.
Qed.

(** X19. What [detectColumnType] answers tells this about the column:
    ['free'] exactly when some value has a ["<"], a [">"] or more than 100
    characters; a non-empty column of empty values is ['boolean'];
    ['number'] and ['decimal'] only when some value is non-empty and every
    non-empty value converts to a number, ['decimal'] only when one of
    them has a ["."]; ['string'] only for an empty column or one with a
    non-empty value that does not convert to a number. *)
Theorem detectColumnType_cases (values : list string) :
  (detectColumnType values = TFree
   <-> Exists (fun v => includes "<" v = true \/ includes ">" v = true
                        \/ 100 < String.length v) values)
  /\ (values <> [] -> Forall (fun v => v = "") values ->
      detectColumnType values = TBoolean)
  /\ (detectColumnType values = TNumber \/ detectColumnType values = TDecimal ->
      Exists (fun v => v <> "") values
      /\ Forall (fun v => v = "" \/ isNaN_Number v = false) values)
  /\ (detectColumnType values = TDecimal ->
      Exists (fun v => includes "." v = true) values)
  /\ (detectColumnType values = TString ->
      values = [] \/ Exists (fun v => v <> "" /\ isNaN_Number v = true) values).
Proof.
  destruct values as [| v0 values].
  { change (detectColumnType []) with TString.
    split; [| split; [| split; [| split]]].
    - split; [done | by intros ?%Exists_nil].
    - done.
    - intros [|]; done.
    - done.
    - by left. }
  set (vs := v0 :: values).
  unfold detectColumnType. change (length vs =? 0)%nat with false. cbv iota.
  set (complex := fun v => includes "<" v || includes ">" v || (100 <? String.length v)%nat).
  set (boolean := fun v => is_empty v || existsb (String.eqb (toLowerCase v)) ["true"; "false"]).
  set (numeric := List.filter (fun v => negb (is_empty v)) vs).
  assert (Hcomplex : existsb complex vs = true
                     <-> Exists (fun v => includes "<" v = true \/ includes ">" v = true
                                          \/ 100 < String.length v) vs).
  { rewrite existsb_exists, List.Exists_exists.
    split; intros (v & Hin & Hv); exists v; (split; [done |]); revert Hv; unfold complex;
      rewrite !orb_true_iff, Nat.ltb_lt; tauto. }
  assert (Hempties : Forall (fun v => v = "") vs -> forallb boolean vs = true).
  { rewrite List.Forall_forall, forallb_forall. intros Hall v Hin.
    unfold boolean. by rewrite (Hall v Hin). }
  assert (Hsome : forallb boolean vs = false -> numeric <> []).
  { intros (v & Hin & Hv)%forallb_false. unfold boolean in Hv.
    apply orb_false_iff in Hv as [Hv _].
    assert (Hnum : In v numeric).
    { apply filter_nonempty_In. split; [done |]. intros ->. done. }
    intros Hnil. by rewrite Hnil in Hnum. }
  assert (Hnonempty : numeric <> [] -> Exists (fun v => v <> "") vs).
  { destruct numeric as [| w ws] eqn:Hnumeric; [done |]. intros _.
    assert (Hw : In w numeric) by (rewrite Hnumeric; by left).
    apply filter_nonempty_In in Hw as [Hin Hw].
    apply List.Exists_exists. by exists w. }
  assert (Hnumbers : forallb (fun v => negb (isNaN_Number v)) numeric = true ->
                     Forall (fun v => v = "" \/ isNaN_Number v = false) vs).
  { rewrite forallb_forall, List.Forall_forall. intros Hall v Hin.
    destruct (decide (v = "")) as [-> | Hv]; [by left | right].
    apply negb_true_iff, Hall, filter_nonempty_In. done. }
  assert (Hdot : existsb (includes ".") numeric = true ->
                 Exists (fun v => includes "." v = true) vs).
  { rewrite existsb_exists, List.Exists_exists. intros (v & Hin & Hv).
    apply filter_nonempty_In in Hin as [Hin _]. by exists v. }
  assert (Hnan : forallb (fun v => negb (isNaN_Number v)) numeric = false ->
                 Exists (fun v => v <> "" /\ isNaN_Number v = true) vs).
  { intros (v & Hin & Hv)%forallb_false. apply negb_false_iff in Hv.
    apply filter_nonempty_In in Hin as [Hin Hne].
    apply List.Exists_exists. by exists v. }
  assert (Hplain : Forall (fun v => v = "") vs -> existsb complex vs = false).
  { intros Hall. destruct (existsb complex vs) eqn:Hex; [| done].
    apply existsb_exists in Hex as (v & Hin & Hv).
    rewrite List.Forall_forall in Hall. by rewrite (Hall v Hin) in Hv. }
  destruct (existsb complex vs) eqn:Hc.
  { split; [| split; [| split; [| split]]].
    - split; [intros _; by apply Hcomplex | done].
    - intros _ Hall%Hplain. done.
    - intros [|]; done.
    - done.
    - done. }
  assert (Hnot : ~ Exists (fun v => includes "<" v = true \/ includes ">" v = true
                                    \/ 100 < String.length v) vs).
  { intros Hex%Hcomplex. done. }
  destruct (forallb boolean vs) eqn:Hb.
  { split; [| split; [| split; [| split]]].
    - split; done.
    - done.
    - intros [|]; done.
    - done.
    - done. }
  assert (Hmixed : ~ Forall (fun v => v = "") vs).
  { intros Hall%Hempties. done. }
  specialize (Hsome eq_refl). specialize (Hnonempty Hsome).
  destruct (length numeric =? 0)%nat eqn:Hlen.
  { apply Nat.eqb_eq in Hlen. by destruct numeric. }
  destruct (forallb (fun v => negb (isNaN_Number v)) numeric) eqn:Hn; simpl.
  - specialize (Hnumbers eq_refl).
    destruct (existsb (includes ".") numeric) eqn:Hd.
    + split; [| split; [| split; [| split]]].
      * split; done.
      * intros _ Hall. done.
      * intros _. done.
      * intros _. by apply Hdot.
      * done.
    + split; [| split; [| split; [| split]]].
      * split; done.
      * intros _ Hall. done.
      * intros _. done.
      * done.
      * done.
  - split; [| split; [| split; [| split]]].
    + split; done.
    + intros _ Hall. done.
    + intros [|]; done.
    + done.
    + intros _. right. by apply Hnan.
Qed.

(** ** Column names *)

Lemma toLowerCase_nonempty (s : string) : s <> "" -> toLowerCase s <> "".
Proof. by destruct s. Qed.

Lemma or_else_nonempty (a b : string) : b <> "" -> or_else a b <> "".
Proof. unfold or_else. by destruct a. Qed.

Lemma column_name_nonempty (index : nat) : column_name index <> "".
Proof. done. Qed.

Lemma named_headers_ok (cells : list cell) :
  Forall (fun header => header_name header <> "" /\ header_type header = TString)
    (named_headers cells).
Proof.
  apply Forall_lookup. intros j header. unfold named_headers.
  rewrite list_lookup_imap. destruct (cells !! j); simpl; [| done].
  intros [= <-]. simpl. split; [| done].
  apply toLowerCase_nonempty, or_else_nonempty, column_name_nonempty.
Qed.

Lemma createNumericHeaders_ok (count : nat) :
  Forall (fun header => header_name header <> "" /\ header_type header = TString)
    (createNumericHeaders count).
Proof.
  apply Forall_lookup. intros j header. unfold createNumericHeaders.
  rewrite list_lookup_fmap. destruct (seq 0 count !! j); simpl; [| done].
  by intros [= <-].
Qed.

Lemma no_rows_no_first (ns : list node) (f : nat -> node -> list tr) :
  (forall j n, rows_of n = [] -> f j n = []) ->
  flat_map rows_of ns = [] ->
  concat (omap thead_rows ns) = [] /\ concat (imap f ns) = [].
Proof.
  intros Hf. revert f Hf. induction ns as [| n ns IH]; intros f Hf; [done |].
  cbn [flat_map]. intros [Hn Hns]%app_eq_nil.
  destruct (IH (f ∘ S)) as [Hhead Hfirst]; [by intros; apply Hf | done |].
  rewrite imap_cons. cbn. rewrite (Hf 0 n Hn), Hfirst. split; [| done].
  destruct n; simpl in *; try done. by rewrite Hn.
Qed.

(** X20. The columns [parseHeaders] finds: every name is non-empty and
    every type is still ['string']; there are as many as the header row
    (the first [thead] row, else the row that is a first child) has [th]
    cells, or [td] cells when it has no [th]; and a table without any row
    has no column. *)
Theorem parseHeaders_columns (t : table) :
  Forall (fun header => header_name header <> "" /\ header_type header = TString)
    (parseHeaders t)
  /\ (forall headerRow,
        from_option Some (tr_first_child t) (thead_tr t) = Some headerRow ->
        length (parseHeaders t)
        = match ths headerRow with
          | [] => length (tds headerRow)
          | _ => length (ths headerRow)
          end)
  /\ (all_rows t = [] -> parseHeaders t = []).
Proof.
  split; [| split].
  - unfold parseHeaders.
    destruct (from_option Some (tr_first_child t) (thead_tr t)) as [headerRow |].
    + destruct (0 <? length (ths headerRow))%nat; [apply named_headers_ok |].
      destruct (0 <? length (tds headerRow))%nat; [| constructor].
      destruct (isRowHeader (tds headerRow));
        [apply named_headers_ok | apply createNumericHeaders_ok].
    + destruct (first_tr t); [apply createNumericHeaders_ok | constructor].
  - intros headerRow Hrow. unfold parseHeaders. rewrite Hrow.
    destruct (ths headerRow) as [| c cs] eqn:Hths.
    + simpl. destruct (tds headerRow) as [| d ds] eqn:Htds; [done |].
      change (0 <? length (d :: ds))%nat with true. cbv iota.
      destruct (isRowHeader (d :: ds)).
      * unfold named_headers. by rewrite length_imap.
      * unfold createNumericHeaders. by rewrite length_fmap, length_seq.
    + change (0 <? length (c :: cs))%nat with true. cbv iota.
      unfold named_headers. by rewrite length_imap.
  - unfold all_rows, parseHeaders, thead_tr, tr_first_child, first_tr, all_rows.
    intros Hnone.
    destruct (no_rows_no_first (table_children t) first_child_rows) as [-> ->]; [| done |].
    + intros j n Hn. destruct n; simpl in *; try done; by rewrite Hn.
    + by rewrite Hnone.
Qed.

(** ** Hidden inputs and construction *)

Lemma parseHiddenInputs_returns (inputs : list input) (hidden : gmap string string) :
  Forall (fun i => input_id i <> "" \/ input_name i <> "") inputs ->
  exists hidden', parseHiddenInputs inputs hidden = Return hidden'.
Proof.
  intros Hkeyed. revert hidden.
  induction Hkeyed as [| i inputs Hi _ IH]; intros hidden; simpl; [by eexists |].
  assert (Hkey : is_empty (or_else (input_id i) (input_name i)) = false).
  { unfold or_else. destruct (input_id i), (input_name i); try done. by destruct Hi. }
  rewrite Hkey. apply IH.
Qed.

Lemma parseHiddenInputs_throws (inputs : list input) (hidden : gmap string string) :
  Exists (fun i => input_id i = "" /\ input_name i = "") inputs ->
  parseHiddenInputs inputs hidden = Throw hidden_error.
Proof.
  intros Hbare. revert hidden.
  induction Hbare as [i inputs [Hid Hname] | i inputs _ IH]; intros hidden; simpl.
  - by rewrite Hid, Hname.
  - destruct (is_empty _); [done | apply IH].
Qed.

Lemma parseHiddenInputs_lookup (inputs : list input) (hidden hidden' : gmap string string)
  (key : string) :
  parseHiddenInputs inputs hidden = Return hidden' ->
  Forall (fun i => or_else (input_id i) (input_name i) <> key) inputs ->
  hidden' !! key = hidden !! key.
Proof.
  intros Hparse Hother. revert hidden Hparse.
  induction Hother as [| i inputs Hi _ IH]; intros hidden; simpl.
  - by intros [= <-].
  - destruct (is_empty _); [done |]. intros Hparse%IH.
    by rewrite Hparse, lookup_insert_ne.
Qed.

(** X21. [new HTMLTableKit(id)] throws "not found" when no element has
    that id, "is not a table" when the element is not a table, and the
    hidden-input error when some hidden input of the table has neither
    [id] nor [name]; otherwise it returns an engine on that table whose
    counter is at most the number of data rows, and a [refresh] right
    after it leaves that engine as it is. *)
Theorem construct_outcomes (doc : list element) (tableId : string) :
  (getElementById doc tableId = None ->
   construct doc tableId = Throw ("Table with id " +:+ quoted tableId +:+ " not found"))
  /\ (forall other, getElementById doc tableId = Some (HTMLElement other) ->
        construct doc tableId
        = Throw ("Element with id " +:+ quoted tableId +:+ " is not a table"))
  /\ (forall t, getElementById doc tableId = Some (HTMLTableElement t) ->
        (Exists (fun i => input_id i = "" /\ input_name i = "") (hidden_inputs t) ->
         construct doc tableId = Throw hidden_error)
        /\ (Forall (fun i => input_id i <> "" \/ input_name i <> "") (hidden_inputs t) ->
            exists k,
              construct doc tableId = Return k
              /\ tableElement k = t
              /\ table_id t = tableId
              /\ nextRowId k <= length (dataRows t)
              /\ refresh k = Return k)).
Proof.
  unfold construct. split; [by intros -> | split; [by intros other -> |]].
  intros t Hfound. rewrite Hfound. split.
  - intros Hbare. unfold parseTable.
    by rewrite (parseHiddenInputs_throws _ _ Hbare).
  - intros Hkeyed.
    destruct (parseHiddenInputs_returns _ ∅ Hkeyed) as [hidden Hhidden].
    destruct (parseTable t 0) as [[obj next] | message] eqn:Hparse.
    2: { unfold parseTable in Hparse. rewrite Hhidden in Hparse.
         by destruct (parseRows _ _ _) as [[? ?] ?]. }
    eexists. split; [done |]. simpl. repeat split.
    + unfold getElementById in Hfound. destruct (is_empty tableId); [done |].
      apply find_some in Hfound as [_ Heq]. by apply String.eqb_eq in Heq.
    + pose proof (parseDataRows_bound
                    (typed_headers (parseHeaders t) (dataRows t)) (dataRows t) 0 0) as Hle.
      revert Hparse. unfold parseTable, parseRows. rewrite Hhidden.
      destruct (parseDataRows _ 0 (dataRows t) 0) as [rows n1].
      intros [= <- <-]. simpl in Hle. lia.
    + unfold refresh. simpl. by rewrite (parseTable_idempotent _ _ _ _ Hparse).
Qed.



(** ** Header detection without a [thead] *)

Lemma thead_None_tr (t : table) : thead t = None -> thead_tr t = None.
Proof.
  unfold thead, thead_tr. intros Hnone%head_None_nil. by rewrite Hnone.
Qed.

Lemma createNumericHeaders_names (count : nat) :
  NoDup (header_name <$> createNumericHeaders count).
Proof.
  unfold createNumericHeaders. rewrite <- list_fmap_compose.
  apply NoDup_fmap_2_strong; [| apply NoDup_seq].
  intros i j _ _ Heq. simpl in Heq. unfold column_name in Heq.
  apply (inj (String.app "column")) in Heq. apply (inj pretty) in Heq. lia.
Qed.




